(** * prom-file-server: the file watch subsystem ([internal/filewatch])

    A shallow embedding of [filewatch.go]: the symlink tracer
    ([traceSymlinks]), the polling chain watcher ([watchSymlinks]), the
    direct file watcher ([watchFile]) and the multiplexer ([Watch]).

    Goroutines are modelled as program counters inside one system state,
    channels as unbuffered rendezvous cells with a history, and every
    [select] as a labelled step that is enabled exactly when the
    corresponding communication can proceed. *)

From Stdlib Require Import List String Ascii Bool Arith ZArith Lia.
Import ListNotations.
Local Open Scope string_scope.
Local Open Scope list_scope.

(* ===================================================================== *)
(** ** Paths: [filepath.Dir] on a Unix system                             *)
(* ===================================================================== *)

Module Path.

Definition path := list ascii.

Definition Separator : ascii := "/"%char.
Definition dot : ascii := "."%char.

Definition IsPathSeparator (c : ascii) : bool := Ascii.eqb c Separator.

Fixpoint elem_eqb (a b : list ascii) : bool :=
  match a, b with
  | [], [] => true
  | x :: a', y :: b' => Ascii.eqb x y && elem_eqb a' b'
  | _, _ => false
  end.

(** The path elements between separators; ["/a//b"] has the elements
    [""], ["a"], [""], ["b"]. *)
Fixpoint elements (p : path) : list (list ascii) :=
  match p with
  | [] => [[]]
  | c :: p' =>
      if IsPathSeparator c then [] :: elements p'
      else match elements p' with
           | [] => [[c]]
           | e :: es => (c :: e) :: es
           end
  end.

(** [out.w--; for out.w > dotdot && !IsPathSeparator(out.index(out.w)) { out.w-- }]
    on the reversed output buffer. *)
Fixpoint backtrack (dotdot : nat) (out : list ascii) : list ascii :=
  match out with
  | [] => []
  | c :: rest =>
      if (dotdot <? List.length rest)%nat && negb (IsPathSeparator c)
      then backtrack dotdot rest
      else rest
  end.

(** One path element of the loop of [Clean]; the output buffer is kept
    reversed, [dotdot] is the index where [..] must stop. *)
Definition clean_elem (rooted : bool) (st : list ascii * nat) (e : list ascii)
  : list ascii * nat :=
  let '(out, dotdot) := st in
  if elem_eqb e [] then st
  else if elem_eqb e [dot] then st
  else if elem_eqb e [dot; dot] then
    if (dotdot <? List.length out)%nat then (backtrack dotdot out, dotdot)
    else if negb rooted then
      let out1 := if (0 <? List.length out)%nat then Separator :: out else out in
      let out2 := dot :: dot :: out1 in
      (out2, List.length out2)
    else st
  else
    let sep := (rooted && negb (List.length out =? 1)%nat)
               || (negb rooted && negb (List.length out =? 0)%nat) in
    (rev e ++ (if sep then Separator :: out else out), dotdot).

Definition rooted (p : path) : bool :=
  match p with
  | c :: _ => IsPathSeparator c
  | [] => false
  end.

Definition Clean (p : path) : path :=
  match p with
  | [] => [dot]
  | _ =>
      let r := rooted p in
      let init := if r then ([Separator], 1%nat) else ([], 0%nat) in
      let out := fst (fold_left (clean_elem r) (elements p) init) in
      match out with
      | [] => [dot]
      | _ => rev out
      end
  end.

(** [path[:i+1]] where [i] is the index of the last separator. *)
Fixpoint dir_prefix (p : path) : path :=
  match p with
  | [] => []
  | c :: p' =>
      match dir_prefix p' with
      | [] => if IsPathSeparator c then [c] else []
      | q => c :: q
      end
  end.

Definition Dir_chars (p : path) : path := Clean (dir_prefix p).

Definition Dir (p : string) : string :=
  string_of_list_ascii (Dir_chars (list_ascii_of_string p)).

(** The bytes of a path, counted element by element with one separator
    after each. *)
Definition total (es : list (list ascii)) : nat :=
  list_sum (map (fun e => S (List.length e)) es).

(** A measure that [Dir] decreases until it reaches ["/"] or ["."]. *)
Definition rank (p : string) : nat :=
  if String.eqb p "." then 0 else S (String.length p).

End Path.

(* ===================================================================== *)
(** ** The operating system as seen by the package                         *)
(* ===================================================================== *)

Inductive errno := ENOENT | EACCES | ENOTDIR | ELOOP | EINVAL | EMFILE | ENOSPC.

(** A Go [error]: a system error, or [fmt.Errorf("<msg>: %v", err)]. *)
Inductive error :=
| Errno (e : errno)
| Errorf (msg : string) (cause : error).

(** The link table of the file system: [os.Readlink] returns the target, or
    fails ([None]) on anything that cannot be read as a symbolic link. *)
Definition FS := string -> option string.

Record OS := {
  Stat : string -> option errno;        (* os.Stat: [None] is success *)
  NewWatcher : option errno;            (* fsnotify.NewWatcher *)
  Add : string -> option errno;         (* watcher.Add *)
  Readlink : FS                         (* os.Readlink while Watch sets up *)
}.

(** [os.IsNotExist(err)] *)
Definition IsNotExist (err : option errno) : bool :=
  match err with
  | Some ENOENT => true
  | _ => false
  end.

(* ===================================================================== *)
(** ** fsnotify events                                                     *)
(* ===================================================================== *)

Module fsnotify.

(** [type Op uint32], [Create Op = 1 << iota] and so on. *)
Definition Op := Z.
Definition Create : Op := Z.shiftl 1 0.
Definition Write : Op := Z.shiftl 1 1.
Definition Remove : Op := Z.shiftl 1 2.
Definition Rename : Op := Z.shiftl 1 3.
Definition Chmod : Op := Z.shiftl 1 4.

Record Event := { Name : string; op : Op }.

(** [func (o Op) Has(h Op) bool { return o&h == h }] *)
Definition Has (e : Event) (h : Op) : bool := (Z.land (op e) h =? h)%Z.

End fsnotify.

(* ===================================================================== *)
(** ** traceSymlinks                                                       *)
(* ===================================================================== *)

Record symlink := { target : string; link : string }.

(** The [for] loop of [traceSymlinks]; it has no bound of its own, so the
    model counts iterations and answers [None] when [fuel] of them did not
    reach the [break]. *)
Fixpoint traceSymlinks_loop (readlink : FS) (fuel : nat) (path : string)
    (ret : list symlink) : option (list symlink) :=
  match fuel with
  | O => None
  | S fuel' =>
      match readlink path with
      | None =>
          (* not a symlink, ascend to parent directory *)
          let parent := Path.Dir path in
          if String.eqb parent path then Some ret
          else traceSymlinks_loop readlink fuel' parent ret
      | Some tgt =>
          traceSymlinks_loop readlink fuel' tgt
            (ret ++ [{| target := tgt; link := path |}])
      end
  end.

Definition traceSymlinks (readlink : FS) (fuel : nat) (path : string)
  : option (list symlink) :=
  traceSymlinks_loop readlink fuel path [].

(** The tracer as the specification words it: a cursor, the chain so far,
    and the three cases of one round. [spec_trace fs cursor chain result]. *)
Inductive spec_trace (fs : FS) : string -> list symlink -> list symlink -> Prop :=
| spec_is_link cursor value chain result :
    fs cursor = Some value ->
    spec_trace fs value (chain ++ [{| target := value; link := cursor |}]) result ->
    spec_trace fs cursor chain result
| spec_ascend cursor chain result :
    fs cursor = None ->
    Path.Dir cursor <> cursor ->
    spec_trace fs (Path.Dir cursor) chain result ->
    spec_trace fs cursor chain result
| spec_root cursor chain :
    fs cursor = None ->
    Path.Dir cursor = cursor ->
    spec_trace fs cursor chain chain.

(** The cursors of the first [n] rounds of the traversal. *)
Fixpoint cursors (fs : FS) (n : nat) (cursor : string) : list string :=
  match n with
  | O => []
  | S n' =>
      cursor :: match fs cursor with
                | Some value => cursors fs n' value
                | None => cursors fs n' (Path.Dir cursor)
                end
  end.

(** The edges a list of cursors contributes, in the order of the cursors. *)
Definition links_of (fs : FS) (cs : list string) : list symlink :=
  flat_map (fun c => match fs c with
                     | Some value => [{| target := value; link := c |}]
                     | None => []
                     end) cs.

(* ===================================================================== *)
(** ** Channels                                                            *)
(* ===================================================================== *)

(** What the receiving side of a [chan struct{}] gets to see. *)
Inductive chan_event := Signal | Closed.

(** An unbuffered channel with one sending goroutine. *)
Record chan := {
  ch_closed : bool;
  ch_sending : bool;            (* the sender is blocked in [ch <- struct{}{}] *)
  ch_hist : list chan_event     (* completed events, oldest first *)
}.

Definition make_chan : chan :=
  {| ch_closed := false; ch_sending := false; ch_hist := [] |}.

(** [close(ch)]; closing a closed channel panics ([None]). *)
Definition chan_close (c : chan) : option chan :=
  if ch_closed c then None
  else Some {| ch_closed := true; ch_sending := ch_sending c;
               ch_hist := ch_hist c ++ [Closed] |}.

(** Arriving at [ch <- struct{}{}]; sending on a closed channel panics. *)
Definition chan_send (c : chan) : option chan :=
  if ch_closed c then None
  else Some {| ch_closed := false; ch_sending := true; ch_hist := ch_hist c |}.

(** [_, ok := <-ch]: [Some (ok, ch')] when the receive can proceed. *)
Definition chan_recv (c : chan) : option (bool * chan) :=
  if ch_sending c then
    Some (true, {| ch_closed := ch_closed c; ch_sending := false;
                   ch_hist := ch_hist c ++ [Signal] |})
  else if ch_closed c then Some (false, c)
  else None.

(* ===================================================================== *)
(** ** The goroutines                                                      *)
(* ===================================================================== *)

Inductive goroutine := GoWatchFile | GoWatchSymlinks | GoWatch.

(** Where the goroutine of [watchFile] stands. *)
Inductive fw_pc := FwSelect | FwSend | FwReturned.

(** Where the goroutine of [watchSymlinks] stands. *)
Inductive sw_pc := SwSelect | SwReturned.

(** Which [case] made the goroutine of [Watch] return. *)
Inductive cause := Cancelled | FileWatcherClosed | SymlinksClosed.

(** Where the goroutine of [Watch] stands. *)
Inductive mx_pc := MxSelect | MxSend | MxReturned (c : cause).

Record sys := {
  ctx_done : bool;              (* ctx.Done() is closed *)
  watcher_closed : bool;        (* watcher.Close() has run *)
  symlinks : list symlink;      (* the snapshot taken by traceSymlinks *)
  fw : fw_pc;
  sw : sw_pc;
  mx : mx_pc;
  fileWatcher : chan;           (* [ret] of watchFile *)
  symlinksChan : chan;          (* [retChan] of watchSymlinks *)
  retChan : chan                (* [retChan] of Watch, the handle *)
}.

Inductive outcome :=
| Next (s : sys)
| Blocked          (* the communication cannot proceed at this point *)
| Panic.

(** What one raw event makes the loop body of [watchFile] do. *)
Inductive fw_action := FwReturn | FwContinue | FwForward.

Definition watchFile_event (e : fsnotify.Event) : fw_action :=
  if fsnotify.Has e fsnotify.Remove || fsnotify.Has e fsnotify.Rename then FwReturn
  else if fsnotify.Has e fsnotify.Create then FwContinue
  else FwForward.

(** The [for _, symlink := range symlinks] loop of one poll: the paths it
    read, and whether it ran to the end ([false]: the goroutine returns). *)
Fixpoint poll (fs : FS) (chain : list symlink) : list string * bool :=
  match chain with
  | [] => ([], true)
  | l :: rest =>
      match fs (link l) with
      | None => ([link l], false)
      | Some tgt =>
          if negb (String.eqb tgt (target l)) then ([link l], false)
          else let '(reads, ok) := poll fs rest in (link l :: reads, ok)
      end
  end.

(** What a poll looks for on one edge: the link cannot be read, or it
    reads something other than the recorded target. *)
Definition drifted (fs : FS) (l : symlink) : Prop :=
  fs (link l) = None \/ exists t, fs (link l) = Some t /\ t <> target l.

Inductive label :=
| Cancel                              (* the caller cancels the context *)
| FwCtxDone                           (* watchFile: case <-ctx.Done() *)
| FwEvent (e : fsnotify.Event)        (* watchFile: case event, ok := <-watcher.Events, ok *)
| FwEventsClosed                      (* the same case, !ok *)
| FwError                             (* watchFile: case <-watcher.Errors *)
| SwCtxDone                           (* watchSymlinks: case <-ctx.Done() *)
| SwTick (fs : FS)                    (* watchSymlinks: case <-time.After(1 * time.Second),
                                         with the link table the poll reads *)
| MxCtxDone                           (* Watch: case <-ctx.Done() *)
| MxFile                              (* Watch: case _, ok := <-fileWatcher *)
| MxSymlinks                          (* Watch: case <-symlinksChan *)
| CallerRecv.                         (* the caller receives from the handle *)

Definition set_ctx_done (s : sys) : sys :=
  {| ctx_done := true; watcher_closed := watcher_closed s; symlinks := symlinks s;
     fw := fw s; sw := sw s; mx := mx s;
     fileWatcher := fileWatcher s; symlinksChan := symlinksChan s;
     retChan := retChan s |}.

Definition set_fw (s : sys) (pc : fw_pc) (wc : bool) (c : chan) : sys :=
  {| ctx_done := ctx_done s; watcher_closed := wc; symlinks := symlinks s;
     fw := pc; sw := sw s; mx := mx s;
     fileWatcher := c; symlinksChan := symlinksChan s; retChan := retChan s |}.

Definition set_sw (s : sys) (pc : sw_pc) (c : chan) : sys :=
  {| ctx_done := ctx_done s; watcher_closed := watcher_closed s; symlinks := symlinks s;
     fw := fw s; sw := pc; mx := mx s;
     fileWatcher := fileWatcher s; symlinksChan := c; retChan := retChan s |}.

Definition set_mx (s : sys) (pc : mx_pc) (c : chan) : sys :=
  {| ctx_done := ctx_done s; watcher_closed := watcher_closed s; symlinks := symlinks s;
     fw := fw s; sw := sw s; mx := pc;
     fileWatcher := fileWatcher s; symlinksChan := symlinksChan s; retChan := c |}.

(** [return] in the goroutine of [watchFile]: the deferred
    [watcher.Close()], then the deferred [close(ret)]. *)
Definition fw_return (s : sys) : outcome :=
  match chan_close (fileWatcher s) with
  | Some c => Next (set_fw s FwReturned true c)
  | None => Panic
  end.

(** [return] in the goroutine of [watchSymlinks]: [close(retChan)]. *)
Definition sw_return (s : sys) : outcome :=
  match chan_close (symlinksChan s) with
  | Some c => Next (set_sw s SwReturned c)
  | None => Panic
  end.

(** [return] in the goroutine of [Watch]: [close(retChan)]. *)
Definition mx_return (s : sys) (why : cause) : outcome :=
  match chan_close (retChan s) with
  | Some c => Next (set_mx s (MxReturned why) c)
  | None => Panic
  end.

(** The select of [watchFile]. *)
Definition fw_step (s : sys) (l : label) : outcome :=
  match fw s, l with
  | FwSelect, FwCtxDone =>
      (* the case has no body: the loop goes round again *)
      if ctx_done s then Next s else Blocked
  | FwSelect, FwEventsClosed => fw_return s
  | FwSelect, FwEvent e =>
      match watchFile_event e with
      | FwReturn => fw_return s
      | FwContinue => Next s
      | FwForward =>
          match chan_send (fileWatcher s) with
          | Some c => Next (set_fw s FwSend (watcher_closed s) c)
          | None => Panic
          end
      end
  | FwSelect, FwError => fw_return s
  | _, _ => Blocked
  end.

(** The select of [watchSymlinks]. *)
Definition sw_step (s : sys) (l : label) : outcome :=
  match sw s, l with
  | SwSelect, SwCtxDone => if ctx_done s then sw_return s else Blocked
  | SwSelect, SwTick fs =>
      if snd (poll fs (symlinks s)) then Next s else sw_return s
  | _, _ => Blocked
  end.

(** The select of [Watch], and its send on the handle. *)
Definition mx_step (s : sys) (l : label) : outcome :=
  match mx s, l with
  | MxSelect, MxCtxDone => if ctx_done s then mx_return s Cancelled else Blocked
  | MxSelect, MxFile =>
      match chan_recv (fileWatcher s) with
      | Some (true, c) =>
          (* the sender goes back to its select; this side sends on retChan *)
          let s1 := set_fw s (match fw s with FwSend => FwSelect | pc => pc end)
                      (watcher_closed s) c in
          match chan_send (retChan s1) with
          | Some r => Next (set_mx s1 MxSend r)
          | None => Panic
          end
      | Some (false, _) => mx_return s FileWatcherClosed
      | None => Blocked
      end
  | MxSelect, MxSymlinks =>
      match chan_recv (symlinksChan s) with
      | Some (_, c) => mx_return (set_sw s (sw s) c) SymlinksClosed
      | None => Blocked
      end
  | MxSend, CallerRecv =>
      match chan_recv (retChan s) with
      | Some (true, c) => Next (set_mx s MxSelect c)
      | _ => Blocked
      end
  | _, _ => Blocked
  end.

Definition step (s : sys) (l : label) : outcome :=
  match l with
  | Cancel => Next (set_ctx_done s)
  | FwCtxDone | FwEvent _ | FwEventsClosed | FwError => fw_step s l
  | SwCtxDone | SwTick _ => sw_step s l
  | MxCtxDone | MxFile | MxSymlinks | CallerRecv => mx_step s l
  end.

Fixpoint run (s : sys) (ls : list label) : outcome :=
  match ls with
  | [] => Next s
  | l :: ls' =>
      match step s l with
      | Next s' => run s' ls'
      | o => o
      end
  end.

(* ===================================================================== *)
(** ** Setting the watch up                                                *)
(* ===================================================================== *)

(** [watchFile] up to its [go] statement: the error it returns, or the
    channel it made; and the goroutines it started. *)
Definition watchFile (os : OS) (filepath : string)
  : (error + chan) * list goroutine :=
  let err := NewWatcher os in
  match err with
  | Some e => (inl (Errorf "failed to create watcher" (Errno e)), [])
  | None =>
      (* [if watcher.Add(filepath); err != nil]: the call is the simple
         statement of the [if], its result is dropped, and the condition
         tests the [err] of NewWatcher *)
      let _ := Add os filepath in
      match err with
      | Some e => (inl (Errorf "failed to watch file" (Errno e)), [])
      | None => (inr make_chan, [GoWatchFile])
      end
  end.

(** [watchSymlinks] up to its [go] statement. *)
Definition watchSymlinks (os : OS) (fuel : nat) (path : string)
  : option ((chan * list symlink) * list goroutine) :=
  match traceSymlinks (Readlink os) fuel path with
  | None => None
  | Some chain => Some ((make_chan, chain), [GoWatchSymlinks])
  end.

(** What [Watch] returns: [(nil, err)] or [(retChan, nil)] with the three
    goroutines at their selects. *)
Inductive watch_result :=
| WatchErr (e : error)
| WatchOk (s : sys).

Definition start (fileWatcher symlinksChan : chan) (chain : list symlink) : sys :=
  {| ctx_done := false; watcher_closed := false; symlinks := chain;
     fw := FwSelect; sw := SwSelect; mx := MxSelect;
     fileWatcher := fileWatcher; symlinksChan := symlinksChan;
     retChan := make_chan |}.

(** [Watch]: the result and the goroutines started; [None] when
    [traceSymlinks] does not come back within [fuel] rounds. *)
Definition Watch (os : OS) (fuel : nat) (filepath : string)
  : option (watch_result * list goroutine) :=
  let watch :=
    match watchFile os filepath with
    | (inl e, gs) => Some (WatchErr (Errorf "failed to get file watcher" e), gs)
    | (inr fileWatcher, gs) =>
        match watchSymlinks os fuel filepath with
        | None => None
        | Some ((symlinksChan, chain), gs') =>
            Some (WatchOk (start fileWatcher symlinksChan chain),
                  gs ++ gs' ++ [GoWatch])
        end
    end in
  match Stat os filepath with
  | Some e =>
      if IsNotExist (Some e)
      then Some (WatchErr (Errorf "file does not exist" (Errno e)), [])
      else watch
  | None => watch
  end.

(* ===================================================================== *)
(** ** Channel states and program counters                                 *)
(* ===================================================================== *)

Definition fw_sending (pc : fw_pc) : bool :=
  match pc with FwSend => true | _ => false end.

Definition fw_returned (pc : fw_pc) : bool :=
  match pc with FwReturned => true | _ => false end.

Definition sw_returned (pc : sw_pc) : bool :=
  match pc with SwReturned => true | _ => false end.

Definition mx_sending (pc : mx_pc) : bool :=
  match pc with MxSend => true | _ => false end.

Definition mx_returned (pc : mx_pc) : bool :=
  match pc with MxReturned _ => true | _ => false end.

(** The events seen on a channel so far: [n] signals, then the closure if
    the channel is closed. *)
Definition hist_shape (c : chan) (n : nat) : Prop :=
  ch_hist c = repeat Signal n ++ (if ch_closed c then [Closed] else []).

(** A channel is sending exactly while its goroutine stands at the send,
    and closed exactly when its goroutine has returned. *)
Record inv (s : sys) : Prop := {
  inv_fw_sending : ch_sending (fileWatcher s) = fw_sending (fw s);
  inv_fw_closed : ch_closed (fileWatcher s) = fw_returned (fw s);
  inv_fw_watcher : watcher_closed s = fw_returned (fw s);
  inv_fw_hist : exists n, hist_shape (fileWatcher s) n;
  inv_sw_sending : ch_sending (symlinksChan s) = false;
  inv_sw_closed : ch_closed (symlinksChan s) = sw_returned (sw s);
  inv_sw_hist : hist_shape (symlinksChan s) 0;
  inv_mx_sending : ch_sending (retChan s) = mx_sending (mx s);
  inv_mx_closed : ch_closed (retChan s) = mx_returned (mx s);
  inv_mx_hist : exists n, hist_shape (retChan s) n
}.

(** The signals in a history. *)
Fixpoint signals (h : list chan_event) : nat :=
  match h with
  | [] => 0
  | Signal :: h' => S (signals h')
  | Closed :: h' => signals h'
  end.

(** The signals a channel has carried or is about to hand over. *)
Definition offered (c : chan) : nat :=
  signals (ch_hist c) + (if ch_sending c then 1 else 0).

(** The raw events that are neither a removal, a rename nor a creation. *)
Definition other_change (e : fsnotify.Event) : bool :=
  negb (fsnotify.Has e fsnotify.Remove)
  && negb (fsnotify.Has e fsnotify.Rename)
  && negb (fsnotify.Has e fsnotify.Create).

Fixpoint other_changes (ls : list label) : nat :=
  match ls with
  | [] => 0
  | FwEvent e :: ls' => (if other_change e then 1 else 0) + other_changes ls'
  | _ :: ls' => other_changes ls'
  end.

(** The labels that leave the notifier alone: no raw event, no error, no
    closed event stream. *)
Definition notifier_quiet (l : label) : bool :=
  match l with
  | FwEvent _ | FwEventsClosed | FwError => false
  | _ => true
  end.

(* ===================================================================== *)
(** ** File systems used in the examples                                   *)
(* ===================================================================== *)

(** A file system given by its symbolic links. *)
Fixpoint link_table (links : list (string * string)) : FS :=
  fun p =>
    match links with
    | [] => None
    | (l, t) :: rest => if String.eqb p l then Some t else link_table rest p
    end.

(** The layout of a mounted configuration volume: the file is a link into
    a directory that is itself a link to the current version. *)
Definition fs_volume : FS :=
  link_table [("/tmp/fw/metrics.txt", "/tmp/fw/data_symlink/metrics.txt");
              ("/tmp/fw/data_symlink", "/tmp/fw/datav1")].

(** The same volume after the directory link was swapped to [datav2]. *)
Definition fs_volume_swapped : FS :=
  link_table [("/tmp/fw/metrics.txt", "/tmp/fw/data_symlink/metrics.txt");
              ("/tmp/fw/data_symlink", "/tmp/fw/datav2")].

(** A plain file below a linked directory. *)
Definition fs_ancestor : FS :=
  link_table [("/srv/data_symlink", "/srv/datav1")].

(** No symbolic link anywhere. *)
Definition fs_plain : FS := link_table [].

(** [ln -s /a /a]: a link whose target is the link. *)
Definition fs_cycle : FS := link_table [("/a", "/a")].

(** A system where everything works. *)
Definition os_volume : OS :=
  {| Stat := fun _ => None; NewWatcher := None; Add := fun _ => None;
     Readlink := fs_volume |}.

(** A plain file in a system where everything works. *)
Definition os_plain : OS :=
  {| Stat := fun _ => None; NewWatcher := None; Add := fun _ => None;
     Readlink := fs_plain |}.

(** The path is not there. *)
Definition os_missing : OS :=
  {| Stat := fun _ => Some ENOENT; NewWatcher := None; Add := fun _ => Some ENOENT;
     Readlink := fs_plain |}.

(** The notifier cannot be created: no file descriptor left. *)
Definition os_no_notifier : OS :=
  {| Stat := fun _ => None; NewWatcher := Some EMFILE; Add := fun _ => None;
     Readlink := fs_plain |}.

(** The notifier cannot take the path: the watch limit is reached. *)
Definition os_no_watch : OS :=
  {| Stat := fun _ => None; NewWatcher := None; Add := fun _ => Some ENOSPC;
     Readlink := fs_plain |}.


(** The path lies below a regular file, as [/etc/passwd/metrics.txt]
    does: nothing is there, [os.Stat] and [watcher.Add] fail with ENOTDIR. *)
Definition os_below_file : OS :=
  {| Stat := fun _ => Some ENOTDIR; NewWatcher := None;
     Add := fun _ => Some ENOTDIR; Readlink := fs_plain |}.

Definition ev (name : string) (o : fsnotify.Op) : fsnotify.Event :=
  {| fsnotify.Name := name; fsnotify.op := o |}.

(* ===================================================================== *)
(** ** The traversal of the tracer, round by round                         *)
(* ===================================================================== *)

(** The cursor of the next round: the value of a link, the parent of
    anything else. *)
Definition next_cursor (fs : FS) (cursor : string) : string :=
  match fs cursor with
  | Some value => value
  | None => Path.Dir cursor
  end.

(** The cursor after [n] rounds. *)
Fixpoint walk (fs : FS) (n : nat) (cursor : string) : string :=
  match n with
  | O => cursor
  | S n' => walk fs n' (next_cursor fs cursor)
  end.

(** Where the loop of [traceSymlinks] breaks. *)
Definition at_root (fs : FS) (cursor : string) : Prop :=
  fs cursor = None /\ Path.Dir cursor = cursor.

(** The [n]-th ancestor of a path. *)
Fixpoint ancestor (n : nat) (p : string) : string :=
  match n with
  | O => p
  | S n' => ancestor n' (Path.Dir p)
  end.

(** [climbs fs p q]: [q] is [p] or an ancestor of [p], and nothing below
    [q] on the way is a link. *)
Definition climbs (fs : FS) (p q : string) : Prop :=
  exists n, ancestor n p = q /\ forall k, k < n -> fs (ancestor k p) = None.

(** A chain hangs together from [p]: its first link is reached by climbing
    from [p], every further link by climbing from the target before it. *)
Inductive linked (fs : FS) : string -> list symlink -> Prop :=
| linked_nil p : linked fs p []
| linked_cons p e es :
    climbs fs p (link e) ->
    fs (link e) = Some (target e) ->
    linked fs (target e) es ->
    linked fs p (e :: es).

(** Where the traversal ends after the last edge of a chain. *)
Definition last_target (p : string) (chain : list symlink) : string :=
  match rev chain with
  | e :: _ => target e
  | [] => p
  end.

(* ===================================================================== *)
(** ** A quiet system                                                      *)
(* ===================================================================== *)

(** The labels of a system nobody touches: no cancellation, nothing from
    the notifier, and polls that read the chain as it was recorded. *)
Definition undisturbed (chain : list symlink) (l : label) : bool :=
  match l with
  | Cancel | FwEvent _ | FwEventsClosed | FwError => false
  | SwTick fs => snd (poll fs chain)
  | _ => true
  end.

(** The labels other than the caller's receive. *)
Definition not_received (l : label) : bool :=
  match l with
  | CallerRecv => false
  | _ => true
  end.

(* ===================================================================== *)
(** ** The first server: [main], [loadMetrics], [watchMetrics]             *)
(* ===================================================================== *)

Module Main.

Definition bytes := list Byte.byte.

(** What [ioutil.ReadFile(metricsFile)] gives. *)
Inductive read_result := ReadErr (e : errno) | ReadOk (data : bytes).

(** The errors of [loadMetrics]: the one of [ReadFile], or
    [fmt.Errorf("metrics file is empty")]. *)
Inductive load_error := ReadFailed (e : errno) | FileEmpty.

(** [loadMetrics]: the error returned and the value of the global
    [metrics] afterwards. *)
Definition loadMetrics (rd : read_result) (metrics : bytes)
  : option load_error * bytes :=
  match rd with
  | ReadErr e => (Some (ReadFailed e), metrics)
  | ReadOk data =>
      if (List.length data =? 0)%nat then (Some FileEmpty, metrics)
      else (None, data)
  end.

(** The lines [watchMetrics] prints. *)
Inductive log_line :=
| LogModified                       (* metrics file modified, reloading... *)
| LogReloadFailed (e : load_error)  (* failed to reload metrics: %v *)
| LogReloaded                       (* metrics file reloaded successfully *)
| LogWatcherError (e : errno).      (* watcher error: %v *)

Record server := {
  metrics : bytes;            (* the global [metrics] *)
  log : list log_line;        (* what was printed, oldest first *)
  watching : bool             (* the loop of [watchMetrics] is running *)
}.

(** What the select of [watchMetrics] receives. An event comes with what
    [ReadFile] gives at that time. *)
Inductive input :=
| Event (e : fsnotify.Event) (rd : read_result)   (* event, ok := <-watcher.Events, ok *)
| EventsClosed                                    (* the same case, !ok *)
| WatcherError (e : errno)                        (* err, ok := <-watcher.Errors, ok *)
| ErrorsClosed.                                   (* the same case, !ok *)

(** [event.Op&fsnotify.Write == fsnotify.Write] *)
Definition is_write (e : fsnotify.Event) : bool :=
  (Z.land (fsnotify.op e) fsnotify.Write =? fsnotify.Write)%Z.

(** One round of the loop of [watchMetrics]. *)
Definition watchMetrics_step (s : server) (i : input) : server :=
  if watching s then
    match i with
    | EventsClosed | ErrorsClosed =>
        {| metrics := metrics s; log := log s; watching := false |}
    | WatcherError e =>
        {| metrics := metrics s; log := log s ++ [LogWatcherError e];
           watching := true |}
    | Event e rd =>
        if is_write e then
          match loadMetrics rd (metrics s) with
          | (Some err, m) =>
              {| metrics := m;
                 log := log s ++ [LogModified; LogReloadFailed err];
                 watching := true |}
          | (None, m) =>
              {| metrics := m;
                 log := log s ++ [LogModified; LogReloaded];
                 watching := true |}
          end
        else s
    end
  else s.

Definition watchMetrics_loop (s : server) (ins : list input) : server :=
  fold_left watchMetrics_step ins s.

(** How the process stands after [main] has loaded the file. *)
Inductive process :=
| Fatal (msg : string)      (* log.Fatalf *)
| Serving (s : server).

(** [main] up to [go watchMetrics()]. *)
Definition main_load (rd : read_result) : process :=
  match loadMetrics rd [] with
  | (Some _, _) => Fatal "failed to load metrics"
  | (None, m) => Serving {| metrics := m; log := []; watching := true |}
  end.

(** The handler of [/metrics]: the body written, or the error page when
    the write fails. *)
Inductive response :=
| Body (b : bytes)
| InternalServerError (msg : string).

Definition handler (s : server) (write_ok : bool) : response :=
  if write_ok then Body (metrics s)
  else InternalServerError "failed to write response".

(** The rounds of a run that reload. *)
Definition reloads (i : input) : bool :=
  match i with
  | Event e _ => is_write e
  | _ => false
  end.

(** The rounds of a run that end the loop. *)
Definition closes (i : input) : bool :=
  match i with
  | EventsClosed | ErrorsClosed => true
  | _ => false
  end.

End Main.

(* ===================================================================== *)
(** * Facts about paths                                                    *)
(* ===================================================================== *)

Module PathFacts.
Import Path.

Lemma elem_eqb_eq a b : elem_eqb a b = true -> a = b.
Proof.
  revert b; induction a as [|x a IH]; intros [|y b]; simpl; try discriminate; auto.
  intros H. apply andb_true_iff in H as [Hxy Hab].
  apply Ascii.eqb_eq in Hxy. f_equal; auto.
Qed.

Lemma elements_nonempty p : elements p <> [].
Proof.
  destruct p as [|c p]; simpl; [discriminate|].
  destruct (IsPathSeparator c); [discriminate|].
  destruct (elements p); discriminate.
Qed.

Lemma elements_total p : total (elements p) = S (List.length p).
Proof.
  unfold total. induction p as [|c p IH]; simpl; [reflexivity|].
  destruct (IsPathSeparator c); simpl; [lia|].
  destruct (elements p) as [|e es] eqn:E; simpl in *; lia.
Qed.

Lemma elements_trailing p :
  elements (p ++ [Separator]) = elements p ++ [[]].
Proof.
  induction p as [|c p IH]; simpl; [reflexivity|].
  destruct (IsPathSeparator c); [now rewrite IH|].
  rewrite IH. destruct (elements p) as [|e es] eqn:E; [|reflexivity].
  now apply elements_nonempty in E.
Qed.

Lemma backtrack_length dd out : List.length (backtrack dd out) <= List.length out.
Proof.
  induction out as [|c out IH]; simpl; [lia|].
  destruct ((dd <? List.length out)%nat && negb (IsPathSeparator c)); lia.
Qed.

Lemma clean_elem_unrooted out dd e k :
  List.length out <= k - 1 ->
  List.length (fst (clean_elem false (out, dd) e)) <= k + S (List.length e) - 1.
Proof.
  intros H. unfold clean_elem.
  destruct (elem_eqb e []); [simpl; lia|].
  destruct (elem_eqb e [dot]); [simpl; lia|].
  destruct (elem_eqb e [dot; dot]) eqn:E.
  - apply elem_eqb_eq in E. subst e.
    destruct (dd <? List.length out)%nat; simpl.
    + pose proof (backtrack_length dd out). lia.
    + destruct (0 <? List.length out)%nat eqn:Z; simpl.
      * apply Nat.ltb_lt in Z. lia.
      * lia.
  - simpl. rewrite length_app, length_rev.
    destruct (List.length out =? 0)%nat eqn:Z; simpl.
    + apply Nat.eqb_eq in Z. lia.
    + apply Nat.eqb_neq in Z. lia.
Qed.

Lemma clean_elem_rooted out dd e k :
  List.length out <= Nat.max 1 k ->
  List.length (fst (clean_elem true (out, dd) e)) <= Nat.max 1 (k + S (List.length e)).
Proof.
  intros H. unfold clean_elem.
  destruct (elem_eqb e []); [cbn [fst]; lia|].
  destruct (elem_eqb e [dot]); [cbn [fst]; lia|].
  destruct (elem_eqb e [dot; dot]) eqn:E.
  - destruct (dd <? List.length out)%nat; cbn [fst negb].
    + pose proof (backtrack_length dd out). lia.
    + lia.
  - cbn [fst negb andb orb]. rewrite length_app, length_rev.
    destruct (List.length out =? 1)%nat eqn:Z; cbn [negb orb andb].
    + apply Nat.eqb_eq in Z. lia.
    + apply Nat.eqb_neq in Z. cbn [List.length]. lia.
Qed.

Lemma total_cons e es : total (e :: es) = S (List.length e) + total es.
Proof. reflexivity. Qed.

Lemma clean_fold_unrooted es : forall out dd k,
  List.length out <= k - 1 ->
  List.length (fst (fold_left (clean_elem false) es (out, dd))) <= k + total es - 1.
Proof.
  induction es as [|e es IH]; intros out dd k H; cbn [fold_left].
  - cbn [fst]. lia.
  - destruct (clean_elem false (out, dd) e) as [out' dd'] eqn:E.
    pose proof (clean_elem_unrooted out dd e k H) as H'. rewrite E in H'. cbn [fst] in H'.
    specialize (IH out' dd' (k + S (List.length e)) H').
    rewrite total_cons. lia.
Qed.

Lemma clean_fold_rooted es : forall out dd k,
  List.length out <= Nat.max 1 k ->
  List.length (fst (fold_left (clean_elem true) es (out, dd))) <= Nat.max 1 (k + total es).
Proof.
  induction es as [|e es IH]; intros out dd k H; cbn [fold_left].
  - cbn [fst]. unfold total; cbn [map list_sum]. lia.
  - destruct (clean_elem true (out, dd) e) as [out' dd'] eqn:E.
    pose proof (clean_elem_rooted out dd e k H) as H'. rewrite E in H'. cbn [fst] in H'.
    specialize (IH out' dd' (k + S (List.length e)) H').
    rewrite total_cons. lia.
Qed.

Lemma clean_elem_skip r st : clean_elem r st [] = st.
Proof. destruct st; reflexivity. Qed.

(** [Clean] shortens every path that ends in a separator, the root apart. *)
Lemma Clean_trailing q :
  Clean (q ++ [Separator]) = [dot]
  \/ q = []
  \/ S (List.length (Clean (q ++ [Separator]))) <= List.length (q ++ [Separator]).
Proof.
  destruct q as [|c q]; [auto|].
  rewrite length_app. cbn [List.length app].
  unfold Clean. cbn [rooted].
  destruct (IsPathSeparator c) eqn:R.
  - set (es := elements (c :: q ++ [Separator])).
    assert (Hes : es = [] :: elements q ++ [[]]).
    { unfold es. cbn [elements]. rewrite R. now rewrite elements_trailing. }
    rewrite Hes. cbn [fold_left]. rewrite clean_elem_skip.
    rewrite fold_left_app. cbn [fold_left]. rewrite clean_elem_skip.
    pose proof (clean_fold_rooted (elements q) [Separator] 1 0) as B.
    rewrite elements_total in B. cbn [List.length] in B.
    specialize (B ltac:(lia)).
    destruct (fst (fold_left (clean_elem true) (elements q) ([Separator], 1))) as [|x out];
      [auto|].
    right; right. rewrite length_rev. cbn [List.length] in *. lia.
  - change (c :: q ++ [Separator]) with ((c :: q) ++ [Separator]).
    rewrite elements_trailing, fold_left_app. cbn [fold_left]. rewrite clean_elem_skip.
    pose proof (clean_fold_unrooted (elements (c :: q)) [] 0 0) as B.
    rewrite elements_total in B. cbn [List.length] in B.
    specialize (B ltac:(lia)).
    destruct (fst (fold_left (clean_elem false) (elements (c :: q)) ([], 0))) as [|x out];
      [auto|].
    right; right. rewrite length_rev. cbn [List.length] in *. lia.
Qed.

Lemma IsPathSeparator_eq c : IsPathSeparator c = true -> c = Separator.
Proof. apply Ascii.eqb_eq. Qed.

Lemma dir_prefix_shape p :
  dir_prefix p = [] \/ exists q, dir_prefix p = q ++ [Separator].
Proof.
  induction p as [|c p IH]; cbn [dir_prefix]; [auto|].
  destruct (dir_prefix p) as [|d p'] eqn:D.
  - destruct (IsPathSeparator c) eqn:R; [|auto].
    right. exists []. now rewrite (IsPathSeparator_eq c R).
  - right. destruct IH as [E | [q E]]; [discriminate|].
    exists (c :: q). cbn [app]. now rewrite E.
Qed.

Lemma dir_prefix_length p : List.length (dir_prefix p) <= List.length p.
Proof.
  induction p as [|c p IH]; cbn [dir_prefix]; [lia|].
  destruct (dir_prefix p); cbn [List.length] in *.
  - destruct (IsPathSeparator c); cbn [List.length]; lia.
  - lia.
Qed.

Lemma dir_prefix_root p :
  dir_prefix p = [Separator] -> p = [Separator] \/ 2 <= List.length p.
Proof.
  destruct p as [|c [|d p]]; cbn [dir_prefix List.length]; [discriminate| |right; lia].
  destruct (IsPathSeparator c) eqn:R; [|discriminate].
  intros _. left. now rewrite (IsPathSeparator_eq c R).
Qed.

Lemma length_string_of_list l :
  String.length (string_of_list_ascii l) = List.length l.
Proof. induction l; simpl; auto. Qed.

Lemma length_list_of_string s :
  List.length (list_ascii_of_string s) = String.length s.
Proof. induction s; simpl; auto. Qed.

Lemma rank_le s : rank s <= S (String.length s).
Proof. unfold rank. destruct (String.eqb s "."); lia. Qed.

(** Every step to the parent lowers the rank, until the parent is the
    path itself (["/"] or ["."]). *)
Lemma Dir_rank s : Dir s <> s -> rank (Dir s) < rank s.
Proof.
  intros Hne. unfold Dir, Dir_chars in *.
  set (l := list_ascii_of_string s) in *.
  assert (Hdot : dir_prefix l = [] -> rank s = S (String.length s)).
  { intros E. unfold rank. destruct (String.eqb_spec s "."); [|reflexivity].
    subst s. now cbv in Hne. }
  destruct (dir_prefix_shape l) as [E | [q E]].
  - rewrite E in *. rewrite (Hdot eq_refl). cbn. lia.
  - assert (Hs : rank s = S (String.length s)).
    { unfold rank. destruct (String.eqb_spec s "."); [|reflexivity].
      subst s. cbv in E. now destruct q as [|? [|? ?]]. }
    rewrite E in *. rewrite Hs.
    destruct (Clean_trailing q) as [C | [C | C]].
    + rewrite C. cbn. lia.
    + subst q. cbn [app] in *.
      destruct (dir_prefix_root l E) as [L | L].
      * exfalso. apply Hne. cbn.
        rewrite <- (string_of_list_ascii_of_string s). fold l. now rewrite L.
      * cbn. rewrite <- length_list_of_string. fold l. lia.
    + pose proof (rank_le (string_of_list_ascii (Clean (q ++ [Separator])))) as B.
      rewrite length_string_of_list in B.
      pose proof (dir_prefix_length l) as D. rewrite E in D.
      rewrite <- length_list_of_string. fold l. lia.
Qed.

End PathFacts.

Example Dir_file : Path.Dir "/tmp/fw/metrics.txt" = "/tmp/fw".
Proof. reflexivity. Qed.
Example Dir_top : Path.Dir "/tmp" = "/".
Proof. reflexivity. Qed.
Example Dir_root : Path.Dir "/" = "/".
Proof. reflexivity. Qed.
Example Dir_relative : Path.Dir "metrics.txt" = ".".
Proof. reflexivity. Qed.
Example Dir_here : Path.Dir "." = ".".
Proof. reflexivity. Qed.
Example Dir_empty : Path.Dir "" = ".".
Proof. reflexivity. Qed.
Example Dir_dotdot : Path.Dir "/a/../b/c" = "/b".
Proof. reflexivity. Qed.
Example Dir_up : Path.Dir "../../x" = "../..".
Proof. reflexivity. Qed.
Example Dir_trailing : Path.Dir "a//b/" = "a/b".
Proof. reflexivity. Qed.

(* ===================================================================== *)
(** * Facts about event operations                                         *)
(* ===================================================================== *)

Lemma land_pow2 (x n : Z) :
  (0 <= n)%Z -> Z.land x (2 ^ n) = if Z.testbit x n then (2 ^ n)%Z else 0%Z.
Proof.
  intros Hn. apply Z.bits_inj'. intros m Hm.
  rewrite Z.land_spec, Z.pow2_bits_eqb by assumption.
  destruct (Z.eqb_spec n m) as [->|N].
  - destruct (Z.testbit x m); cbn.
    + rewrite Z.pow2_bits_eqb by assumption. now rewrite Z.eqb_refl.
    + now rewrite Z.bits_0.
  - rewrite andb_false_r. destruct (Z.testbit x n).
    + rewrite Z.pow2_bits_eqb by assumption. symmetry. now apply Z.eqb_neq.
    + now rewrite Z.bits_0.
Qed.

(** [Has] with a one-bit operation tests that bit. *)
Lemma Has_bit (e : fsnotify.Event) (n : Z) :
  (0 <= n)%Z -> fsnotify.Has e (Z.shiftl 1 n) = Z.testbit (fsnotify.op e) n.
Proof.
  intros Hn. unfold fsnotify.Has. rewrite Z.shiftl_1_l, land_pow2 by assumption.
  destruct (Z.testbit (fsnotify.op e) n).
  - apply Z.eqb_refl.
  - apply Z.eqb_neq. pose proof (Z.pow_pos_nonneg 2 n). lia.
Qed.

(** The releases of the library that test [o&h != 0] instead agree with
    that on a one-bit operation. *)
Lemma Has_any_bit (e : fsnotify.Event) (n : Z) :
  (0 <= n)%Z ->
  fsnotify.Has e (Z.shiftl 1 n)
  = negb (Z.land (fsnotify.op e) (Z.shiftl 1 n) =? 0)%Z.
Proof.
  intros Hn. rewrite Has_bit by assumption.
  rewrite Z.shiftl_1_l, land_pow2 by assumption.
  destruct (Z.testbit (fsnotify.op e) n); cbn; [|reflexivity].
  symmetry. apply negb_true_iff, Z.eqb_neq. pose proof (Z.pow_pos_nonneg 2 n). lia.
Qed.

(* ===================================================================== *)
(** * The tracer                                                           *)
(* ===================================================================== *)

Section Tracer.

Variable fs : FS.

Lemma traceSymlinks_loop_mono fuel : forall path acc chain,
  traceSymlinks_loop fs fuel path acc = Some chain ->
  traceSymlinks_loop fs (S fuel) path acc = Some chain.
Proof.
  induction fuel as [|fuel IH]; intros path acc chain H; [discriminate|].
  cbn [traceSymlinks_loop] in H |- *.
  destruct (fs path) as [tgt|].
  - now apply IH.
  - destruct (String.eqb (Path.Dir path) path); [assumption|]. now apply IH.
Qed.

Lemma loop_refines_spec fuel : forall path acc chain,
  traceSymlinks_loop fs fuel path acc = Some chain ->
  spec_trace fs path acc chain.
Proof.
  induction fuel as [|fuel IH]; intros path acc chain H; [discriminate|].
  cbn [traceSymlinks_loop] in H.
  destruct (fs path) as [tgt|] eqn:R.
  - eapply spec_is_link; eauto.
  - destruct (String.eqb_spec (Path.Dir path) path) as [E|E].
    + injection H as <-. now apply spec_root.
    + apply spec_ascend; auto.
Qed.

Lemma spec_refines_loop path acc chain :
  spec_trace fs path acc chain ->
  exists fuel, traceSymlinks_loop fs fuel path acc = Some chain.
Proof.
  induction 1 as [cursor value chain result R _ [fuel IH]
                 |cursor chain result R N _ [fuel IH]
                 |cursor chain R E].
  - exists (S fuel). cbn [traceSymlinks_loop]. now rewrite R.
  - exists (S fuel). cbn [traceSymlinks_loop]. rewrite R.
    apply String.eqb_neq in N. now rewrite N.
  - exists 1. cbn [traceSymlinks_loop]. rewrite R.
    apply String.eqb_eq in E. now rewrite E.
Qed.

Lemma links_of_root n : forall c,
  fs c = None -> Path.Dir c = c -> links_of fs (cursors fs n c) = [].
Proof.
  induction n as [|n IH]; intros c R E; [reflexivity|].
  cbn [cursors]. rewrite R, E. unfold links_of in *. cbn [flat_map].
  rewrite R. cbn [app]. now apply IH.
Qed.

Lemma loop_discovery_order fuel : forall path acc chain,
  traceSymlinks_loop fs fuel path acc = Some chain ->
  chain = acc ++ links_of fs (cursors fs fuel path).
Proof.
  induction fuel as [|fuel IH]; intros path acc chain H; [discriminate|].
  cbn [traceSymlinks_loop] in H. cbn [cursors].
  unfold links_of in *. cbn [flat_map].
  destruct (fs path) as [tgt|] eqn:R.
  - apply IH in H. now rewrite <- app_assoc in H.
  - cbn [app]. destruct (String.eqb_spec (Path.Dir path) path) as [E|E].
    + injection H as <-. rewrite E.
      pose proof (links_of_root fuel path R E) as L. unfold links_of in L.
      now rewrite L, app_nil_r.
    + now apply IH.
Qed.

Lemma links_of_nil cs :
  links_of fs cs = [] <-> (forall c, In c cs -> fs c = None).
Proof.
  unfold links_of. induction cs as [|c cs IH]; cbn [flat_map].
  - split; [intros _ c []|reflexivity].
  - destruct (fs c) as [tgt|] eqn:R.
    + split; [discriminate|]. intros H.
      specialize (H c (or_introl eq_refl)). congruence.
    + cbn [app]. rewrite IH. split.
      * intros H c' [<-|I]; auto.
      * intros H c' I. apply H. now right.
Qed.

Lemma links_of_recorded cs :
  Forall (fun e => fs (link e) = Some (target e)) (links_of fs cs).
Proof.
  unfold links_of. induction cs as [|c cs IH]; cbn [flat_map]; [constructor|].
  destruct (fs c) as [tgt|] eqn:R; cbn [app]; auto.
Qed.

(** A rank that every round of the loop lowers bounds the rounds. *)
Lemma loop_terminates_ranked (rank : string -> nat) :
  (forall p t, fs p = Some t -> rank t < rank p) ->
  (forall p, fs p = None -> Path.Dir p <> p -> rank (Path.Dir p) < rank p) ->
  forall n path acc, rank path <= n ->
  exists chain, traceSymlinks_loop fs (S n) path acc = Some chain.
Proof.
  intros Hlink Hdir. induction n as [|n IH]; intros path acc Hn.
  - cbn [traceSymlinks_loop]. destruct (fs path) as [tgt|] eqn:R.
    + specialize (Hlink _ _ R). lia.
    + destruct (String.eqb_spec (Path.Dir path) path) as [E|E]; [eauto|].
      specialize (Hdir _ R E). lia.
  - change (traceSymlinks_loop fs (S (S n)) path acc)
      with (match fs path with
            | None => if String.eqb (Path.Dir path) path then Some acc
                      else traceSymlinks_loop fs (S n) (Path.Dir path) acc
            | Some tgt => traceSymlinks_loop fs (S n) tgt
                            (acc ++ [{| target := tgt; link := path |}])
            end).
    destruct (fs path) as [tgt|] eqn:R.
    + apply IH. specialize (Hlink _ _ R). lia.
    + destruct (String.eqb_spec (Path.Dir path) path) as [E|E]; [eauto|].
      apply IH. specialize (Hdir _ R E). lia.
Qed.

End Tracer.

Lemma loop_cycle_diverges fuel : forall acc,
  traceSymlinks_loop fs_cycle fuel "/a" acc = None.
Proof.
  induction fuel as [|fuel IH]; intros acc; [reflexivity|].
  cbn [traceSymlinks_loop]. change (fs_cycle "/a") with (Some "/a"). apply IH.
Qed.

Example trace_volume :
  traceSymlinks fs_volume 7 "/tmp/fw/metrics.txt"
  = Some [ {| target := "/tmp/fw/data_symlink/metrics.txt"; link := "/tmp/fw/metrics.txt" |};
           {| target := "/tmp/fw/datav1"; link := "/tmp/fw/data_symlink" |} ].
Proof. reflexivity. Qed.

Example trace_volume_short : traceSymlinks fs_volume 6 "/tmp/fw/metrics.txt" = None.
Proof. reflexivity. Qed.

Example trace_ancestor :
  traceSymlinks fs_ancestor 6 "/srv/data_symlink/metrics.txt"
  = Some [ {| target := "/srv/datav1"; link := "/srv/data_symlink" |} ].
Proof. reflexivity. Qed.

Example trace_plain : traceSymlinks fs_plain 4 "/tmp/fw/metrics.txt" = Some [].
Proof. reflexivity. Qed.

Example trace_relative : traceSymlinks fs_plain 2 "metrics.txt" = Some [].
Proof. reflexivity. Qed.

(** C4. [traceSymlinks] is the algorithm of the specification: it returns
    a chain exactly when the cursor walk of the specification (record the
    link and move to its value; otherwise move to the parent; stop when the
    parent is the cursor) ends with that chain. The chain lists the links
    among the cursors in the order the cursors were visited, so the
    leaf-most link comes first, and it is empty exactly when no cursor was
    a link; every edge holds a cursor and the value read from it; without
    any link in the file system the walk ends with the empty chain for
    every path. *)
Theorem traceSymlinks_follows_spec (fs : FS) (path : string) (chain : list symlink) :
  ((exists fuel, traceSymlinks fs fuel path = Some chain)
   <-> spec_trace fs path [] chain)
  /\ (forall fuel, traceSymlinks fs fuel path = Some chain ->
        chain = links_of fs (cursors fs fuel path)
        /\ Forall (fun e => fs (link e) = Some (target e)) chain
        /\ (chain = [] <-> forall c, In c (cursors fs fuel path) -> fs c = None))
  /\ ((forall p, fs p = None) ->
        traceSymlinks fs (S (Path.rank path)) path = Some []).
Proof.
  split; [|split].
  - split.
    + intros [fuel H]. exact (loop_refines_spec fs fuel path [] chain H).
    + apply spec_refines_loop.
  - intros fuel H. apply loop_discovery_order in H. cbn [app] in H.
    split; [exact H|]. rewrite H. split; [apply links_of_recorded|apply links_of_nil].
  - intros Hplain.
    destruct (loop_terminates_ranked fs Path.rank) with (n := Path.rank path)
      (path := path) (acc := @nil symlink) as [c Hc].
    + intros p t E. rewrite Hplain in E. discriminate.
    + intros p _ N. now apply PathFacts.Dir_rank.
    + lia.
    + unfold traceSymlinks. rewrite Hc. f_equal.
      apply loop_discovery_order in Hc. cbn [app] in Hc. rewrite Hc.
      apply links_of_nil. intros; apply Hplain.
Qed.

Lemma traceSymlinks_follows_spec_witness :
  spec_trace fs_volume "/tmp/fw/metrics.txt" []
    [ {| target := "/tmp/fw/data_symlink/metrics.txt"; link := "/tmp/fw/metrics.txt" |};
      {| target := "/tmp/fw/datav1"; link := "/tmp/fw/data_symlink" |} ]
  /\ traceSymlinks fs_plain (S (Path.rank "/tmp/fw/metrics.txt")) "/tmp/fw/metrics.txt"
     = Some [].
Proof.
  split.
  - apply (proj1 (traceSymlinks_follows_spec fs_volume "/tmp/fw/metrics.txt" _)).
    exists 7. reflexivity.
  - apply (proj2 (proj2 (traceSymlinks_follows_spec fs_plain "/tmp/fw/metrics.txt" []))).
    reflexivity.
Defined.

(** C7, as stated, fails: on a link that is its own target the loop reads
    the link, moves the cursor to the same path, and never reaches the
    [break]. *)
Lemma traceSymlinks_cycle_never_returns :
  ~ (exists fuel chain, traceSymlinks fs_cycle fuel "/a" = Some chain).
Proof.
  intros [fuel [chain H]]. unfold traceSymlinks in H.
  rewrite loop_cycle_diverges in H. discriminate.
Qed.

(* ===================================================================== *)
(** * The running system                                                   *)
(* ===================================================================== *)

Lemma repeat_snoc (n : nat) :
  (repeat Signal n ++ []) ++ [Signal] = repeat Signal (S n) ++ [].
Proof. rewrite !app_nil_r. symmetry. apply repeat_cons. Qed.

Lemma start_inv chain : inv (start make_chan make_chan chain).
Proof. constructor; cbn; try reflexivity; exists 0; reflexivity. Qed.

Ltac open_state s H :=
  let n := fresh "n" in
  let m := fresh "m" in
  destruct H as [? ? ? [n ?] ? ? ? ? ? [m ?]];
  destruct s as [cd wc sy f w x [fc fsn fh] [sc ssn sh] [rc rsn rh]];
  unfold hist_shape in *; cbn in *; subst.

Ltac close_inv n m :=
  constructor; unfold hist_shape; cbn; try reflexivity;
  first [ exists n; cbn; rewrite ?app_nil_r; reflexivity
        | exists m; cbn; rewrite ?app_nil_r; reflexivity
        | exists (S n); apply repeat_snoc
        | exists (S m); apply repeat_snoc
        | rewrite ?app_nil_r; reflexivity ].

Lemma step_inv s l s' : inv s -> step s l = Next s' -> inv s'.
Proof.
  intros H E. open_state s H.
  destruct l; cbn in E; unfold fw_step, sw_step, mx_step, fw_return, sw_return,
    mx_return, chan_close, chan_send, chan_recv in E; cbn in E.
  all: try (injection E as <-; close_inv n m).
  all: try (destruct f; cbn in E; try discriminate;
            try destruct cd; try destruct (watchFile_event e);
            cbn in E; try discriminate; injection E as <-; close_inv n m).
  all: try (destruct w; cbn in E; try discriminate;
            try destruct cd; try destruct (snd (poll fs sy));
            cbn in E; try discriminate; injection E as <-; close_inv n m).
  all: try (destruct x; cbn in E; try discriminate;
            try destruct cd; try destruct f; try destruct w;
            cbn in E; try discriminate; injection E as <-; close_inv n m).
Qed.

(** No goroutine closes a closed channel or sends on one. *)
Lemma step_no_panic s l : inv s -> step s l <> Panic.
Proof.
  intros H E. open_state s H.
  destruct l; cbn in E; unfold fw_step, sw_step, mx_step, fw_return, sw_return,
    mx_return, chan_close, chan_send, chan_recv in E; cbn in E;
    try discriminate.
  all: try (destruct f; cbn in E; try discriminate;
            try destruct cd; try destruct (watchFile_event e);
            cbn in E; discriminate).
  all: try (destruct w; cbn in E; try discriminate;
            try destruct cd; try destruct (snd (poll fs sy));
            cbn in E; discriminate).
  all: try (destruct x; cbn in E; try discriminate;
            try destruct cd; try destruct f; try destruct w;
            cbn in E; discriminate).
Qed.

Lemma run_app s ls1 ls2 :
  run s (ls1 ++ ls2)
  = match run s ls1 with
    | Next s1 => run s1 ls2
    | o => o
    end.
Proof.
  revert s; induction ls1 as [|l ls1 IH]; intros s; cbn [run app]; [reflexivity|].
  destruct (step s l); auto.
Qed.

Lemma run_inv ls : forall s s', inv s -> run s ls = Next s' -> inv s'.
Proof.
  induction ls as [|l ls IH]; intros s s' H E; cbn [run] in E.
  - now injection E as <-.
  - destruct (step s l) as [s1| |] eqn:S1; try discriminate.
    apply (IH s1 s'); [exact (step_inv s l s1 H S1) | exact E].
Qed.

Lemma run_no_panic ls : forall s, inv s -> run s ls <> Panic.
Proof.
  induction ls as [|l ls IH]; intros s H; cbn [run]; [discriminate|].
  destruct (step s l) as [s1| |] eqn:S1; try discriminate.
  - apply IH. exact (step_inv s l s1 H S1).
  - now apply step_no_panic in S1.
Qed.

Lemma Watch_ok_start os fuel filepath s gs :
  Watch os fuel filepath = Some (WatchOk s, gs) ->
  exists chain,
    traceSymlinks (Readlink os) fuel filepath = Some chain
    /\ s = start make_chan make_chan chain
    /\ gs = [GoWatchFile; GoWatchSymlinks; GoWatch].
Proof.
  unfold Watch, watchFile, watchSymlinks.
  destruct (NewWatcher os) as [e|];
    destruct (traceSymlinks (Readlink os) fuel filepath) as [chain|];
    destruct (Stat os filepath) as [e'|]; try destruct (IsNotExist (Some e'));
    try discriminate; intros [= <- <-]; eauto.
Qed.

(** The snapshot is taken once and never written again. *)
Lemma step_symlinks s l s' : step s l = Next s' -> symlinks s' = symlinks s.
Proof.
  destruct s as [cd wc sy f w x [fc fsn fh] [sc ssn sh] [rc rsn rh]].
  destruct l; cbn; unfold fw_step, sw_step, mx_step, fw_return, sw_return,
    mx_return, chan_close, chan_send, chan_recv; cbn;
    repeat match goal with
           | |- context [match ?b with _ => _ end] => destruct b; cbn
           end;
    try discriminate; now intros [= <-].
Qed.

Lemma run_symlinks ls : forall s s', run s ls = Next s' -> symlinks s' = symlinks s.
Proof.
  induction ls as [|l ls IH]; intros s s' E; cbn [run] in E.
  - now injection E as <-.
  - destruct (step s l) as [s1| |] eqn:S1; try discriminate.
    rewrite (IH _ _ E). exact (step_symlinks s l s1 S1).
Qed.

Lemma signals_app h1 h2 : signals (h1 ++ h2) = signals h1 + signals h2.
Proof.
  induction h1 as [|[|] h1 IH]; cbn [signals app]; auto. now rewrite IH.
Qed.

Lemma watchFile_event_other e :
  watchFile_event e = FwForward <-> other_change e = true.
Proof.
  unfold watchFile_event, other_change.
  destruct (fsnotify.Has e fsnotify.Remove), (fsnotify.Has e fsnotify.Rename),
    (fsnotify.Has e fsnotify.Create); cbn; split; congruence.
Qed.

(** Every step adds to the signals of [watchFile] what the raw event it
    handles asks for: one for a change that is forwarded, nothing else. *)
Lemma step_offered s l s' :
  inv s -> step s l = Next s' ->
  offered (fileWatcher s') = offered (fileWatcher s) + other_changes [l].
Proof.
  intros H E.
  pose proof (inv_fw_sending s H) as Hs. pose proof (inv_fw_closed s H) as Hc.
  clear H.
  destruct s as [cd wc sy f w x [fc fsn fh] [sc ssn sh] [rc rsn rh]].
  cbn in Hs, Hc. subst fc fsn. unfold offered.
  destruct l; cbn in E; unfold fw_step, sw_step, mx_step, fw_return, sw_return,
    mx_return, chan_close, chan_send, chan_recv in E; cbn in E.
  3: { destruct (other_change e) eqn:O.
       - pose proof (proj2 (watchFile_event_other e) O) as O'. rewrite O' in E.
         destruct f; cbn in E; try discriminate. injection E as <-. cbn.
         rewrite O. lia.
       - assert (N : watchFile_event e <> FwForward)
           by (rewrite watchFile_event_other; congruence).
         destruct f; cbn in E; try discriminate.
         destruct (watchFile_event e); try congruence; cbn in E;
           injection E as <-; cbn; rewrite O, ?signals_app; cbn; lia. }
  all: destruct f, w, x; cbn in E; try discriminate;
       repeat match type of E with
         | context [match ?b with _ => _ end] => destruct b; cbn in E
         end; try discriminate; injection E as <-; cbn;
       rewrite ?signals_app; cbn; lia.
Qed.

Lemma other_changes_app ls1 ls2 :
  other_changes (ls1 ++ ls2) = other_changes ls1 + other_changes ls2.
Proof.
  induction ls1 as [|[] ls1 IH]; cbn [other_changes app]; auto.
  rewrite IH. lia.
Qed.

Lemma run_offered ls : forall s s',
  inv s -> run s ls = Next s' ->
  offered (fileWatcher s') = offered (fileWatcher s) + other_changes ls.
Proof.
  induction ls as [|l ls IH]; intros s s' H E; cbn [run] in E.
  - injection E as <-. cbn. lia.
  - destruct (step s l) as [s1| |] eqn:S1; try discriminate.
    rewrite (IH s1 s' (step_inv s l s1 H S1) E).
    rewrite (step_offered s l s1 H S1).
    change (l :: ls) with ([l] ++ ls). rewrite other_changes_app. lia.
Qed.

Example event_write : watchFile_event (ev "metrics.txt" fsnotify.Write) = FwForward.
Proof. reflexivity. Qed.
Example event_chmod : watchFile_event (ev "metrics.txt" fsnotify.Chmod) = FwForward.
Proof. reflexivity. Qed.
Example event_create : watchFile_event (ev "metrics.txt" fsnotify.Create) = FwContinue.
Proof. reflexivity. Qed.
Example event_remove : watchFile_event (ev "metrics.txt" fsnotify.Remove) = FwReturn.
Proof. reflexivity. Qed.
Example event_rename : watchFile_event (ev "metrics.txt" fsnotify.Rename) = FwReturn.
Proof. reflexivity. Qed.
Example event_create_write :
  watchFile_event (ev "metrics.txt" (Z.lor fsnotify.Create fsnotify.Write)) = FwContinue.
Proof. reflexivity. Qed.
Example event_write_remove :
  watchFile_event (ev "metrics.txt" (Z.lor fsnotify.Write fsnotify.Remove)) = FwReturn.
Proof. reflexivity. Qed.

(** The acceptance scenario: a chmod and a write reach the caller as two
    signals, and the cancellation closes the handle after them. *)
Example two_events_two_signals :
  exists s,
    run (start make_chan make_chan [])
      [FwEvent (ev "metrics.txt" fsnotify.Chmod); MxFile; CallerRecv;
       FwEvent (ev "metrics.txt" fsnotify.Write); MxFile; CallerRecv;
       Cancel; MxCtxDone] = Next s
    /\ ch_hist (retChan s) = [Signal; Signal; Closed].
Proof. eexists. split; reflexivity. Qed.

(** C1. A raw event that reaches the select of the direct watcher is
    handled by its operation bits. With Remove or Rename the goroutine
    returns: its channel and the notifier are closed and no signal is added.
    Otherwise, with Create, nothing changes at all. Otherwise the goroutine
    goes to its send with exactly one more signal on its channel. Signals
    are never merged: over any run the signals of the channel grow by the
    number of raw events of the third kind. *)
Theorem watchFile_classifies_events (s : sys) (e : fsnotify.Event) :
  inv s -> fw s = FwSelect ->
  (fsnotify.Has e fsnotify.Remove || fsnotify.Has e fsnotify.Rename = true ->
     exists s', step s (FwEvent e) = Next s'
       /\ fw s' = FwReturned
       /\ ch_closed (fileWatcher s') = true
       /\ watcher_closed s' = true
       /\ offered (fileWatcher s') = offered (fileWatcher s))
  /\ (fsnotify.Has e fsnotify.Remove || fsnotify.Has e fsnotify.Rename = false ->
      fsnotify.Has e fsnotify.Create = true ->
      step s (FwEvent e) = Next s)
  /\ (fsnotify.Has e fsnotify.Remove || fsnotify.Has e fsnotify.Rename = false ->
      fsnotify.Has e fsnotify.Create = false ->
      exists s', step s (FwEvent e) = Next s'
        /\ fw s' = FwSend
        /\ ch_sending (fileWatcher s') = true
        /\ offered (fileWatcher s') = S (offered (fileWatcher s)))
  /\ (forall ls s', run s ls = Next s' ->
        offered (fileWatcher s') = offered (fileWatcher s) + other_changes ls).
Proof.
  intros H F. split; [|split; [|split]].
  - intros T.
    assert (A : watchFile_event e = FwReturn) by (unfold watchFile_event; now rewrite T).
    destruct (step s (FwEvent e)) as [s'| |] eqn:S1.
    + exists s'. pose proof (step_offered s _ s' H S1) as O.
      assert (N : other_change e = false).
      { destruct (other_change e) eqn:X; [|reflexivity].
        apply watchFile_event_other in X. congruence. }
      cbn [other_changes] in O. rewrite N in O.
      cbn in S1. unfold fw_step in S1. rewrite F, A in S1.
      unfold fw_return in S1.
      destruct (chan_close (fileWatcher s)) as [c|] eqn:C; [|discriminate].
      injection S1 as <-. unfold chan_close in C.
      destruct (ch_closed (fileWatcher s)); [discriminate|]. injection C as <-.
      cbn in *. repeat split; auto. lia.
    + cbn in S1. unfold fw_step in S1. rewrite F, A in S1. unfold fw_return in S1.
      destruct (chan_close (fileWatcher s)) as [c|] eqn:C; [discriminate|].
      unfold chan_close in C. rewrite (inv_fw_closed s H), F in C. discriminate.
    + now apply step_no_panic in S1.
  - intros T C. cbn. unfold fw_step, watchFile_event. now rewrite F, T, C.
  - intros T C.
    assert (A : watchFile_event e = FwForward)
      by (unfold watchFile_event; now rewrite T, C).
    destruct (step s (FwEvent e)) as [s'| |] eqn:S1.
    + exists s'. pose proof (step_offered s _ s' H S1) as O.
      pose proof (proj1 (watchFile_event_other e) A) as X.
      cbn [other_changes] in O. rewrite X in O.
      cbn in S1. unfold fw_step in S1. rewrite F, A in S1.
      destruct (chan_send (fileWatcher s)) as [c|] eqn:Q; [|discriminate].
      injection S1 as <-. unfold chan_send in Q.
      destruct (ch_closed (fileWatcher s)); [discriminate|]. injection Q as <-.
      cbn in *. repeat split; auto. lia.
    + cbn in S1. unfold fw_step in S1. rewrite F, A in S1.
      destruct (chan_send (fileWatcher s)) as [c|] eqn:Q; [discriminate|].
      unfold chan_send in Q. rewrite (inv_fw_closed s H), F in Q. discriminate.
    + now apply step_no_panic in S1.
  - intros ls s'. now apply run_offered.
Qed.

Lemma watchFile_classifies_events_witness :
  (exists s', step (start make_chan make_chan [])
                (FwEvent (ev "metrics.txt" fsnotify.Remove)) = Next s'
     /\ fw s' = FwReturned
     /\ ch_closed (fileWatcher s') = true
     /\ watcher_closed s' = true
     /\ offered (fileWatcher s') = offered (fileWatcher (start make_chan make_chan [])))
  /\ (exists s', step (start make_chan make_chan [])
                   (FwEvent (ev "metrics.txt" fsnotify.Write)) = Next s'
        /\ fw s' = FwSend
        /\ ch_sending (fileWatcher s') = true
        /\ offered (fileWatcher s')
           = S (offered (fileWatcher (start make_chan make_chan [])))).
Proof.
  split.
  - apply (proj1 (watchFile_classifies_events (start make_chan make_chan [])
                    (ev "metrics.txt" fsnotify.Remove) (start_inv []) eq_refl)).
    reflexivity.
  - apply (proj1 (proj2 (proj2 (watchFile_classifies_events
                    (start make_chan make_chan [])
                    (ev "metrics.txt" fsnotify.Write) (start_inv []) eq_refl))));
      reflexivity.
Defined.

(* ===================================================================== *)
(** * The chain watcher                                                    *)
(* ===================================================================== *)

Lemma poll_drift fs chain :
  snd (poll fs chain) = false <-> exists l, In l chain /\ drifted fs l.
Proof.
  unfold drifted. induction chain as [|l chain IH]; cbn [poll].
  - split; [discriminate|]. now intros (l & [] & _).
  - destruct (fs (link l)) as [t|] eqn:R.
    + destruct (String.eqb_spec t (target l)) as [E|E]; cbn [negb].
      * destruct (poll fs chain) as [reads ok]. cbn [snd] in *. rewrite IH.
        split.
        -- intros (l' & I & D). exists l'. split; [now right|exact D].
        -- intros (l' & [<-|I] & D); [|eauto].
           destruct D as [D|(t' & D & N)]; congruence.
      * cbn [snd]. split; [|reflexivity]. intros _. exists l.
        split; [now left|]. right. eauto.
    + cbn [snd]. split; [|reflexivity]. intros _. exists l.
      split; [now left|]. now left.
Qed.

Lemma poll_reads_all fs chain :
  snd (poll fs chain) = true -> fst (poll fs chain) = map link chain.
Proof.
  induction chain as [|l chain IH]; cbn [poll map]; [reflexivity|].
  destruct (fs (link l)) as [t|]; [|discriminate].
  destruct (negb (String.eqb t (target l))); [discriminate|].
  destruct (poll fs chain) as [reads ok]. cbn [fst snd] in *.
  intros ->. now rewrite IH.
Qed.

Lemma step_sw_returned s l s' :
  step s l = Next s' -> sw s = SwReturned -> sw s' = SwReturned.
Proof.
  destruct s as [cd wc sy f w x [fc fsn fh] [sc ssn sh] [rc rsn rh]].
  cbn. intros E ->.
  destruct l; cbn in E; unfold fw_step, sw_step, mx_step, fw_return, sw_return,
    mx_return, chan_close, chan_send, chan_recv in E; cbn in E; try discriminate.
  all: destruct f, x; cbn in E; try discriminate;
       repeat match type of E with
         | context [match ?b with _ => _ end] => destruct b; cbn in E
         end; try discriminate; now injection E as <-.
Qed.

Lemma run_sw_returned ls : forall s s',
  run s ls = Next s' -> sw s = SwReturned -> sw s' = SwReturned.
Proof.
  induction ls as [|l ls IH]; intros s s' E R; cbn [run] in E.
  - now injection E as <-.
  - destruct (step s l) as [s1| |] eqn:S1; try discriminate.
    apply (IH s1 s' E). exact (step_sw_returned s l s1 S1 R).
Qed.

Example poll_unchanged :
  poll fs_volume
    [ {| target := "/tmp/fw/data_symlink/metrics.txt"; link := "/tmp/fw/metrics.txt" |};
      {| target := "/tmp/fw/datav1"; link := "/tmp/fw/data_symlink" |} ]
  = (["/tmp/fw/metrics.txt"; "/tmp/fw/data_symlink"], true).
Proof. reflexivity. Qed.

Example poll_swapped :
  poll fs_volume_swapped
    [ {| target := "/tmp/fw/data_symlink/metrics.txt"; link := "/tmp/fw/metrics.txt" |};
      {| target := "/tmp/fw/datav1"; link := "/tmp/fw/data_symlink" |} ]
  = (["/tmp/fw/metrics.txt"; "/tmp/fw/data_symlink"], false).
Proof. reflexivity. Qed.

Example poll_removed :
  poll fs_plain
    [ {| target := "/tmp/fw/data_symlink/metrics.txt"; link := "/tmp/fw/metrics.txt" |};
      {| target := "/tmp/fw/datav1"; link := "/tmp/fw/data_symlink" |} ]
  = (["/tmp/fw/metrics.txt"], false).
Proof. reflexivity. Qed.

(** C2. On a tick the chain watcher reads the links of its snapshot in
    order. The poll fails exactly when some edge cannot be read or reads a
    target other than the recorded one; then the goroutine closes its
    channel and returns, and from there on it stays returned and no tick is
    taken any more. A poll that does not fail has read every edge and leaves
    the state as it was. The snapshot itself is the one taken at the start:
    no step changes it. *)
Theorem watchSymlinks_poll_is_terminal (s : sys) (fs : FS) :
  inv s -> sw s = SwSelect ->
  (snd (poll fs (symlinks s)) = false
   <-> exists l, In l (symlinks s) /\ drifted fs l)
  /\ (snd (poll fs (symlinks s)) = true ->
        fst (poll fs (symlinks s)) = map link (symlinks s)
        /\ step s (SwTick fs) = Next s)
  /\ (snd (poll fs (symlinks s)) = false ->
        exists s', step s (SwTick fs) = Next s'
          /\ sw s' = SwReturned
          /\ ch_hist (symlinksChan s') = [Closed]
          /\ ch_closed (symlinksChan s') = true
          /\ forall ls s'', run s' ls = Next s'' ->
               sw s'' = SwReturned
               /\ forall fs', step s'' (SwTick fs') = Blocked)
  /\ (forall ls s', run s ls = Next s' -> symlinks s' = symlinks s).
Proof.
  intros H W. split; [apply poll_drift|]. split; [|split].
  - intros P. split; [now apply poll_reads_all|].
    cbn. unfold sw_step. now rewrite W, P.
  - intros P.
    pose proof (inv_sw_closed s H) as C. pose proof (inv_sw_hist s H) as Hh.
    unfold hist_shape in Hh. rewrite C, W in Hh. rewrite W in C. cbn in C, Hh.
    eexists. split.
    + cbn. unfold sw_step. rewrite W, P. unfold sw_return, chan_close.
      rewrite C. reflexivity.
    + cbn. rewrite Hh. repeat split; auto.
      * eapply run_sw_returned; eauto.
      * intros fs'. cbn. unfold sw_step.
        erewrite run_sw_returned; eauto.
  - intros ls s'. apply run_symlinks.
Qed.

Lemma watchSymlinks_poll_is_terminal_witness :
  exists s',
    step (start make_chan make_chan
            [ {| target := "/tmp/fw/datav1"; link := "/tmp/fw/data_symlink" |} ])
         (SwTick fs_volume_swapped) = Next s'
    /\ sw s' = SwReturned
    /\ ch_hist (symlinksChan s') = [Closed]
    /\ ch_closed (symlinksChan s') = true
    /\ forall ls s'', run s' ls = Next s'' ->
         sw s'' = SwReturned
         /\ forall fs', step s'' (SwTick fs') = Blocked.
Proof.
  apply (proj1 (proj2 (proj2 (watchSymlinks_poll_is_terminal
           (start make_chan make_chan
              [ {| target := "/tmp/fw/datav1"; link := "/tmp/fw/data_symlink" |} ])
           fs_volume_swapped (start_inv _) eq_refl)))).
  reflexivity.
Defined.

(* ===================================================================== *)
(** * The handle                                                           *)
(* ===================================================================== *)

(** Once the handle is closed no step touches it. *)
Lemma step_retChan_closed s l s' :
  inv s -> step s l = Next s' -> ch_closed (retChan s) = true ->
  retChan s' = retChan s.
Proof.
  intros H E C. pose proof (inv_mx_closed s H) as M. rewrite C in M. clear H C.
  destruct s as [cd wc sy f w x [fc fsn fh] [sc ssn sh] [rc rsn rh]].
  cbn in M. destruct x; try discriminate.
  destruct l; cbn in E; unfold fw_step, sw_step, mx_step, fw_return, sw_return,
    mx_return, chan_close, chan_send, chan_recv in E; cbn in E; try discriminate.
  all: destruct f, w; cbn in E; try discriminate;
       repeat match type of E with
         | context [match ?b with _ => _ end] => destruct b; cbn in E
         end; try discriminate; now injection E as <-.
Qed.

Lemma run_retChan_closed ls : forall s s',
  inv s -> run s ls = Next s' -> ch_closed (retChan s) = true ->
  retChan s' = retChan s.
Proof.
  induction ls as [|l ls IH]; intros s s' H E C; cbn [run] in E.
  - now injection E as <-.
  - destruct (step s l) as [s1| |] eqn:S1; try discriminate.
    pose proof (step_retChan_closed s l s1 H S1 C) as R.
    rewrite <- R. apply IH; auto.
    + exact (step_inv s l s1 H S1).
    + now rewrite R.
Qed.

(** The handle goes from open to closed in a step of the goroutine of
    [Watch] only, through one of its three returning cases. *)
Lemma step_closes_retChan s l s' :
  inv s -> step s l = Next s' ->
  ch_closed (retChan s) = false -> ch_closed (retChan s') = true ->
  (l = MxCtxDone /\ ctx_done s = true /\ mx s' = MxReturned Cancelled)
  \/ (l = MxFile /\ ch_closed (fileWatcher s) = true
      /\ mx s' = MxReturned FileWatcherClosed)
  \/ (l = MxSymlinks /\ ch_closed (symlinksChan s) = true
      /\ mx s' = MxReturned SymlinksClosed).
Proof.
  intros H E C C'. open_state s H.
  destruct l; cbn in E; unfold fw_step, sw_step, mx_step, fw_return, sw_return,
    mx_return, chan_close, chan_send, chan_recv in E; cbn in E.
  all: try (injection E as <-; cbn in C'; congruence).
  all: destruct f, w, x; cbn in E, C; try discriminate;
       repeat match type of E with
         | context [match ?b with _ => _ end] => destruct b eqn:?; cbn in E
         end; try discriminate; injection E as <-; cbn in *; try discriminate; auto 10.
Qed.

(** C3. The handle returned by [Watch] is closed at most once and carries
    nothing after its closure: no run panics (closing a closed channel
    would), the history of the handle is a run of signals with at most one
    closure, at the end, and a closed handle is never touched again. Every
    step that closes it is one of the three returning cases of the select:
    the cancellation, the closed channel of the direct watcher, or the
    closed channel of the chain watcher. *)
Theorem retChan_closes_once (os : OS) (fuel : nat) (filepath : string)
    (s0 : sys) (gs : list goroutine) (ls : list label) :
  Watch os fuel filepath = Some (WatchOk s0, gs) ->
  run s0 ls <> Panic
  /\ forall s, run s0 ls = Next s ->
       (exists n, ch_hist (retChan s)
                  = repeat Signal n ++ (if ch_closed (retChan s) then [Closed] else []))
       /\ (forall ls' s', run s ls' = Next s' -> ch_closed (retChan s) = true ->
             retChan s' = retChan s)
       /\ (forall l s', step s l = Next s' ->
             ch_closed (retChan s) = false -> ch_closed (retChan s') = true ->
             (l = MxCtxDone /\ ctx_done s = true /\ mx s' = MxReturned Cancelled)
             \/ (l = MxFile /\ ch_closed (fileWatcher s) = true
                 /\ mx s' = MxReturned FileWatcherClosed)
             \/ (l = MxSymlinks /\ ch_closed (symlinksChan s) = true
                 /\ mx s' = MxReturned SymlinksClosed)).
Proof.
  intros W. apply Watch_ok_start in W as (chain & _ & -> & _).
  pose proof (start_inv chain) as H0. split; [now apply run_no_panic|].
  intros s R. pose proof (run_inv ls _ s H0 R) as H.
  split; [exact (inv_mx_hist s H)|]. split.
  - intros ls' s'. now apply run_retChan_closed.
  - intros l s'. now apply step_closes_retChan.
Qed.

Lemma retChan_closes_once_witness :
  run (start make_chan make_chan [])
    [FwEvent (ev "metrics.txt" fsnotify.Write); MxFile; CallerRecv;
     FwEvent (ev "metrics.txt" fsnotify.Remove); MxFile] <> Panic
  /\ forall s,
       run (start make_chan make_chan [])
         [FwEvent (ev "metrics.txt" fsnotify.Write); MxFile; CallerRecv;
          FwEvent (ev "metrics.txt" fsnotify.Remove); MxFile] = Next s ->
       exists n, ch_hist (retChan s)
                 = repeat Signal n ++ (if ch_closed (retChan s) then [Closed] else []).
Proof.
  destruct (retChan_closes_once os_plain 4 "/tmp/fw/metrics.txt"
              (start make_chan make_chan [])
              [GoWatchFile; GoWatchSymlinks; GoWatch]
              [FwEvent (ev "metrics.txt" fsnotify.Write); MxFile; CallerRecv;
               FwEvent (ev "metrics.txt" fsnotify.Remove); MxFile] eq_refl)
    as [N A].
  split; [exact N|]. intros s R. exact (proj1 (A s R)).
Defined.

(* ===================================================================== *)
(** * The channel of the chain watcher                                     *)
(* ===================================================================== *)

Lemma step_sw_returns s l s' :
  step s l = Next s' -> sw s = SwSelect -> sw s' = SwReturned ->
  (l = SwCtxDone /\ ctx_done s = true)
  \/ (exists fs, l = SwTick fs /\ snd (poll fs (symlinks s)) = false).
Proof.
  destruct s as [cd wc sy f w x [fc fsn fh] [sc ssn sh] [rc rsn rh]].
  cbn. intros E -> R.
  destruct l as [ | |e| | | |t| | | | ]; cbn in E;
    unfold fw_step, sw_step, mx_step, fw_return, sw_return,
      mx_return, chan_close, chan_send, chan_recv in E; cbn in E.
  all: try (injection E as <-; discriminate).
  all: try match type of E with
         | context [poll ?fs' _] =>
             destruct (snd (poll fs' sy)) eqn:P;
             [injection E as <-; discriminate | right; eauto]
         end.
  all: destruct f, x; cbn in E; try discriminate;
       repeat match type of E with
         | context [match ?b with _ => _ end] => destruct b eqn:?; cbn in E
         end; try discriminate; injection E as <-; cbn in *; try discriminate; auto.
Qed.

(** C10. Whatever the chain, the channel of the chain watcher never has a
    sender and never carries a signal: its history is empty until it is
    closed and is the closure alone afterwards. So the receive in the select
    of [Watch] completes only after the chain watcher has returned, and the
    chain watcher returns only on cancellation or on a poll that found an
    edge unreadable or changed. *)
Theorem symlinksChan_only_closes (chain : list symlink) (ls : list label) (s : sys) :
  run (start make_chan make_chan chain) ls = Next s ->
  ch_sending (symlinksChan s) = false
  /\ signals (ch_hist (symlinksChan s)) = 0
  /\ ch_hist (symlinksChan s) = (if ch_closed (symlinksChan s) then [Closed] else [])
  /\ (forall s', step s MxSymlinks = Next s' ->
        sw s = SwReturned /\ ch_closed (symlinksChan s) = true)
  /\ (forall l s', step s l = Next s' -> sw s = SwSelect -> sw s' = SwReturned ->
        (l = SwCtxDone /\ ctx_done s = true)
        \/ (exists fs, l = SwTick fs
                       /\ exists e, In e (symlinks s) /\ drifted fs e)).
Proof.
  intros R. pose proof (run_inv ls _ s (start_inv chain) R) as H.
  pose proof (inv_sw_sending s H) as Hs. pose proof (inv_sw_closed s H) as Hc.
  pose proof (inv_sw_hist s H) as Hh. unfold hist_shape in Hh. cbn in Hh.
  split; [exact Hs|]. split; [|split; [exact Hh|split]].
  - rewrite Hh. now destruct (ch_closed (symlinksChan s)).
  - intros s' E. cbn in E. unfold mx_step in E.
    destruct (mx s); try discriminate. unfold chan_recv in E. rewrite Hs in E.
    destruct (ch_closed (symlinksChan s)) eqn:C; [|discriminate].
    split; [|reflexivity]. destruct (sw s); [discriminate|reflexivity].
  - intros l s' E W W'.
    destruct (step_sw_returns s l s' E W W') as [A|(fs & -> & P)]; [now left|].
    right. exists fs. split; [reflexivity|]. now apply poll_drift.
Qed.

Lemma symlinksChan_only_closes_witness :
  exists s,
    run (start make_chan make_chan
           [ {| target := "/tmp/fw/datav1"; link := "/tmp/fw/data_symlink" |} ])
        [SwTick fs_volume; SwTick fs_volume_swapped] = Next s
    /\ ch_sending (symlinksChan s) = false
    /\ signals (ch_hist (symlinksChan s)) = 0
    /\ ch_hist (symlinksChan s) = [Closed].
Proof.
  eexists. split; [reflexivity|].
  destruct (symlinksChan_only_closes
              [ {| target := "/tmp/fw/datav1"; link := "/tmp/fw/data_symlink" |} ]
              [SwTick fs_volume; SwTick fs_volume_swapped] _ eq_refl)
    as (A & B & C & _).
  exact (conj A (conj B C)).
Defined.

(* ===================================================================== *)
(** * Drift and pending signals                                            *)
(* ===================================================================== *)

(** The state after a write was seen and the directory link was swapped:
    the direct watcher stands at its send, the chain watcher has closed
    its channel. *)
Example drift_with_pending_signal :
  exists s0 gs s1,
    Watch os_volume 7 "/tmp/fw/metrics.txt" = Some (WatchOk s0, gs)
    /\ run s0 [FwEvent (ev "metrics.txt" fsnotify.Write); SwTick fs_volume_swapped]
       = Next s1
    /\ fw s1 = FwSend /\ sw s1 = SwReturned /\ mx s1 = MxSelect
    /\ ch_closed (symlinksChan s1) = true
    /\ ch_hist (retChan s1) = [].
Proof. do 3 eexists. repeat split; reflexivity. Qed.

(** C8, as stated, fails: with the channel of the chain watcher closed and
    a signal of the direct watcher pending, the select of [Watch] may take
    the direct watcher's case, and the signal is delivered on the handle
    after the drift. *)
Lemma signal_delivered_after_drift :
  ~ (forall s0 gs ls1 s1 ls2 s2,
       Watch os_volume 7 "/tmp/fw/metrics.txt" = Some (WatchOk s0, gs) ->
       run s0 ls1 = Next s1 ->
       ch_closed (symlinksChan s1) = true ->
       run s1 ls2 = Next s2 ->
       signals (ch_hist (retChan s2)) = signals (ch_hist (retChan s1))).
Proof.
  intros C.
  specialize (C _ _
    [FwEvent (ev "metrics.txt" fsnotify.Write); SwTick fs_volume_swapped] _
    [MxFile; CallerRecv] _ eq_refl eq_refl eq_refl eq_refl).
  discriminate C.
Qed.

(** C8, amended. With the channel of the chain watcher closed, the select
    of [Watch] can take that case, and when it does the goroutine returns
    and closes the handle: the signal a direct watcher may have pending is
    left on its channel, and the handle never changes again. The case is the
    only one the select can take when the context is not cancelled and the
    direct watcher offers nothing. *)
Theorem drift_closes_handle_when_taken (s : sys) :
  inv s -> mx s = MxSelect -> ch_closed (symlinksChan s) = true ->
  (exists s', step s MxSymlinks = Next s'
     /\ mx s' = MxReturned SymlinksClosed
     /\ ch_hist (retChan s') = ch_hist (retChan s) ++ [Closed]
     /\ fileWatcher s' = fileWatcher s
     /\ forall ls s'', run s' ls = Next s'' -> retChan s'' = retChan s')
  /\ (ctx_done s = false -> fw s = FwSelect ->
      step s MxCtxDone = Blocked /\ step s MxFile = Blocked
      /\ step s CallerRecv = Blocked).
Proof.
  intros H M C. split.
  - destruct (step s MxSymlinks) as [s'| |] eqn:S1.
    + exists s'. pose proof (step_inv s _ s' H S1) as H'.
      assert (A : mx s' = MxReturned SymlinksClosed
                  /\ ch_hist (retChan s') = ch_hist (retChan s) ++ [Closed]
                  /\ fileWatcher s' = fileWatcher s
                  /\ ch_closed (retChan s') = true).
      { cbn in S1. unfold mx_step in S1. rewrite M in S1.
        destruct (chan_recv (symlinksChan s)) as [[ok c]|]; [|discriminate].
        unfold mx_return, chan_close in S1. cbn in S1.
        destruct (ch_closed (retChan s)); [discriminate|].
        injection S1 as <-. cbn. auto. }
      destruct A as (A1 & A2 & A3 & A4). repeat split; auto.
      intros ls s'' R. exact (run_retChan_closed ls s' s'' H' R A4).
    + exfalso. cbn in S1. unfold mx_step in S1. rewrite M in S1.
      unfold chan_recv in S1. rewrite (inv_sw_sending s H), C in S1.
      unfold mx_return, chan_close in S1. cbn in S1.
      rewrite (inv_mx_closed s H), M in S1. discriminate.
    + now apply step_no_panic in S1.
  - intros D F. cbn. unfold mx_step, chan_recv. rewrite M, D.
    rewrite (inv_fw_sending s H), (inv_fw_closed s H), F. auto.
Qed.

Lemma drift_closes_handle_when_taken_witness :
  exists s1,
    run (start make_chan make_chan
           [ {| target := "/tmp/fw/data_symlink/metrics.txt";
                link := "/tmp/fw/metrics.txt" |};
             {| target := "/tmp/fw/datav1"; link := "/tmp/fw/data_symlink" |} ])
        [FwEvent (ev "metrics.txt" fsnotify.Write); SwTick fs_volume_swapped]
    = Next s1
    /\ ch_sending (fileWatcher s1) = true
    /\ ch_closed (symlinksChan s1) = true
    /\ exists s',
         step s1 MxSymlinks = Next s'
         /\ mx s' = MxReturned SymlinksClosed
         /\ ch_hist (retChan s') = ch_hist (retChan s1) ++ [Closed]
         /\ fileWatcher s' = fileWatcher s1
         /\ forall ls s'', run s' ls = Next s'' -> retChan s'' = retChan s'.
Proof.
  eexists. split; [reflexivity|]. split; [reflexivity|]. split; [reflexivity|].
  match goal with
  | |- exists s', step ?s1 MxSymlinks = Next s' /\ _ =>
      apply (proj1 (drift_closes_handle_when_taken s1
               (run_inv
                  [FwEvent (ev "metrics.txt" fsnotify.Write);
                   SwTick fs_volume_swapped]
                  (start make_chan make_chan
                     [ {| target := "/tmp/fw/data_symlink/metrics.txt";
                          link := "/tmp/fw/metrics.txt" |};
                       {| target := "/tmp/fw/datav1";
                          link := "/tmp/fw/data_symlink" |} ])
                  s1 (start_inv _) eq_refl)
               eq_refl eq_refl))
  end.
Defined.

(* ===================================================================== *)
(** * Cancellation and the direct watcher                                  *)
(* ===================================================================== *)

Lemma step_fw_quiet s l s' :
  notifier_quiet l = true -> step s l = Next s' ->
  fw s <> FwReturned -> fw s' <> FwReturned.
Proof.
  destruct s as [cd wc sy f w x [fc fsn fh] [sc ssn sh] [rc rsn rh]].
  cbn. intros Q E F.
  destruct l; try discriminate Q; cbn in E;
    unfold fw_step, sw_step, mx_step, fw_return, sw_return,
      mx_return, chan_close, chan_send, chan_recv in E; cbn in E.
  all: try (injection E as <-; exact F).
  all: destruct f, w, x; cbn in E; try discriminate; try congruence;
       repeat match type of E with
         | context [match ?b with _ => _ end] => destruct b eqn:?; cbn in E
         end; try discriminate; injection E as <-; cbn; discriminate.
Qed.

Lemma run_fw_quiet ls : forall s s',
  forallb notifier_quiet ls = true -> run s ls = Next s' ->
  fw s <> FwReturned -> fw s' <> FwReturned.
Proof.
  induction ls as [|l ls IH]; intros s s' Q E F; cbn [run forallb] in *.
  - now injection E as <-.
  - apply andb_true_iff in Q as [Q1 Q2].
    destruct (step s l) as [s1| |] eqn:S1; try discriminate.
    apply (IH s1 s' Q2 E). exact (step_fw_quiet s l s1 Q1 S1 F).
Qed.

Example cancelled_watch :
  exists s,
    run (start make_chan make_chan [])
      [Cancel; FwCtxDone; SwCtxDone; MxCtxDone; FwCtxDone; FwCtxDone] = Next s
    /\ ctx_done s = true
    /\ sw s = SwReturned
    /\ mx s = MxReturned Cancelled
    /\ fw s = FwSelect
    /\ watcher_closed s = false.
Proof. eexists. repeat split; reflexivity. Qed.

(** C6 does not hold of the code. The cancellation case of the select of
    [watchFile] has no body, so taking it leaves the goroutine at the
    select: through any run without a raw event, a notifier error or a
    closed event stream - cancellation included - the goroutine does not
    return, the notifier stays open and the channel stays open. *)
Theorem watchFile_outlives_cancellation (s : sys) (ls : list label) (s' : sys) :
  inv s -> fw s <> FwReturned ->
  forallb notifier_quiet ls = true ->
  run s ls = Next s' ->
  fw s' <> FwReturned
  /\ watcher_closed s' = false
  /\ ch_closed (fileWatcher s') = false
  /\ (fw s' = FwSelect -> ctx_done s' = true -> step s' FwCtxDone = Next s').
Proof.
  intros H F Q R.
  pose proof (run_fw_quiet ls s s' Q R F) as F'.
  pose proof (run_inv ls s s' H R) as H'.
  assert (N : fw_returned (fw s') = false) by (destruct (fw s') eqn:X; cbn; congruence).
  split; [exact F'|]. split; [|split].
  - now rewrite (inv_fw_watcher s' H').
  - now rewrite (inv_fw_closed s' H').
  - intros S D. cbn. unfold fw_step. now rewrite S, D.
Qed.

Lemma watchFile_outlives_cancellation_witness :
  exists s',
    run (start make_chan make_chan [])
      [Cancel; FwCtxDone; SwCtxDone; MxCtxDone; FwCtxDone] = Next s'
    /\ ctx_done s' = true
    /\ ch_closed (retChan s') = true
    /\ fw s' <> FwReturned
    /\ watcher_closed s' = false
    /\ ch_closed (fileWatcher s') = false
    /\ (fw s' = FwSelect -> ctx_done s' = true -> step s' FwCtxDone = Next s').
Proof.
  eexists. split; [reflexivity|]. split; [reflexivity|]. split; [reflexivity|].
  apply (watchFile_outlives_cancellation (start make_chan make_chan [])
           [Cancel; FwCtxDone; SwCtxDone; MxCtxDone; FwCtxDone]).
  - apply start_inv.
  - discriminate.
  - reflexivity.
  - reflexivity.
Defined.

(* ===================================================================== *)
(** * Setting up                                                           *)
(* ===================================================================== *)

Example Watch_invalid :
  Watch os_missing 0 "invalid"
  = Some (WatchErr (Errorf "file does not exist" (Errno ENOENT)), []).
Proof. reflexivity. Qed.

Example Watch_no_notifier :
  Watch os_no_notifier 4 "/tmp/fw/metrics.txt"
  = Some (WatchErr (Errorf "failed to get file watcher"
                      (Errorf "failed to create watcher" (Errno EMFILE))), []).
Proof. reflexivity. Qed.

Example Watch_plain :
  Watch os_plain 4 "/tmp/fw/metrics.txt"
  = Some (WatchOk (start make_chan make_chan []),
          [GoWatchFile; GoWatchSymlinks; GoWatch]).
Proof. reflexivity. Qed.

Example Watch_cycle_hangs :
  forall fuel,
    Watch {| Stat := fun _ => Some ELOOP; NewWatcher := None;
             Add := fun _ => Some ELOOP; Readlink := fs_cycle |} fuel "/a" = None.
Proof.
  intros fuel. unfold Watch, watchFile, watchSymlinks, traceSymlinks. cbn.
  now rewrite loop_cycle_diverges.
Qed.


Example Watch_below_file :
  Watch os_below_file 4 "/etc/passwd/metrics.txt"
  = Some (WatchOk (start make_chan make_chan []),
          [GoWatchFile; GoWatchSymlinks; GoWatch]).
Proof. reflexivity. Qed.



(** C5 does not hold of the code. When the notifier is created but refuses
    the path, [watchFile] drops the error of [watcher.Add] and tests the
    error of [fsnotify.NewWatcher] a second time; so [Watch] returns a
    handle and no error, and the three goroutines are running. *)
Theorem Watch_drops_Add_error (os : OS) (fuel : nat) (filepath : string)
    (e : errno) (chain : list symlink) :
  IsNotExist (Stat os filepath) = false ->
  NewWatcher os = None ->
  Add os filepath = Some e ->
  traceSymlinks (Readlink os) fuel filepath = Some chain ->
  Watch os fuel filepath
  = Some (WatchOk (start make_chan make_chan chain),
          [GoWatchFile; GoWatchSymlinks; GoWatch]).
Proof.
  intros N W A T. unfold Watch, watchFile, watchSymlinks. rewrite W, T.
  destruct (Stat os filepath) as [e'|]; [|reflexivity].
  now rewrite N.
Qed.

Lemma Watch_drops_Add_error_witness :
  Watch os_no_watch 4 "/tmp/fw/metrics.txt"
  = Some (WatchOk (start make_chan make_chan []),
          [GoWatchFile; GoWatchSymlinks; GoWatch]).
Proof.
  apply (Watch_drops_Add_error os_no_watch 4 "/tmp/fw/metrics.txt" ENOSPC []);
    reflexivity.
Defined.

(* ===================================================================== *)
(** * More about the tracer                                                *)
(* ===================================================================== *)

Section Walk.

Variable fs : FS.

Lemma walk_add n : forall m c, walk fs (n + m) c = walk fs m (walk fs n c).
Proof. induction n as [|n IH]; intros m c; cbn [walk Nat.add]; auto. Qed.

Lemma at_root_next c : at_root fs c -> next_cursor fs c = c.
Proof. intros [R E]. unfold next_cursor. now rewrite R. Qed.

Lemma at_root_walk n : forall c, at_root fs c -> walk fs n c = c.
Proof.
  induction n as [|n IH]; intros c H; cbn [walk]; [reflexivity|].
  rewrite (at_root_next c H). now apply IH.
Qed.

Lemma loop_reaches_root fuel : forall c acc chain,
  traceSymlinks_loop fs fuel c acc = Some chain ->
  exists k, k < fuel /\ at_root fs (walk fs k c).
Proof.
  induction fuel as [|fuel IH]; intros c acc chain H; [discriminate|].
  cbn [traceSymlinks_loop] in H.
  destruct (fs c) as [t|] eqn:R.
  - destruct (IH _ _ _ H) as (k & Hk & A). exists (S k). split; [lia|].
    cbn [walk]. unfold next_cursor. now rewrite R.
  - destruct (String.eqb_spec (Path.Dir c) c) as [E|E].
    + exists 0. split; [lia|]. now split.
    + destruct (IH _ _ _ H) as (k & Hk & A). exists (S k). split; [lia|].
      cbn [walk]. unfold next_cursor. now rewrite R.
Qed.

Lemma cursors_walk n : forall c x,
  In x (cursors fs n c) -> exists j, j < n /\ x = walk fs j c.
Proof.
  induction n as [|n IH]; intros c x I; [destruct I|].
  cbn [cursors] in I. destruct I as [<-|I].
  - exists 0. split; [lia|reflexivity].
  - assert (J : In x (cursors fs n (next_cursor fs c))).
    { unfold next_cursor. destruct (fs c); exact I. }
    destruct (IH _ _ J) as (j & Hj & ->). exists (S j). split; [lia|reflexivity].
Qed.

Lemma In_links_of cs e :
  In e (links_of fs cs) -> In (link e) cs /\ fs (link e) = Some (target e).
Proof.
  unfold links_of. induction cs as [|c cs IH]; cbn [flat_map]; [intros []|].
  intros I. apply in_app_or in I as [I|I].
  - destruct (fs c) as [t|] eqn:R; [|destruct I].
    destruct I as [<-|[]]. cbn. split; [now left|exact R].
  - destruct (IH I) as [A B]. split; [now right|exact B].
Qed.

(** A traversal that reaches the root never comes back to a link. *)
Lemma no_return_to_link c t k j :
  fs c = Some t -> at_root fs (walk fs k c) -> walk fs (S j) c <> c.
Proof.
  intros R A P.
  assert (Per : forall m, walk fs (m * S j) c = c).
  { induction m as [|m IH]; [reflexivity|].
    change (S m * S j) with (S j + m * S j). rewrite walk_add, P. exact IH. }
  specialize (Per k).
  replace (k * S j) with (k + k * j) in Per by lia.
  rewrite walk_add, (at_root_walk (k * j) _ A) in Per.
  destruct A as [N _]. rewrite Per in N. congruence.
Qed.

Lemma loop_links_distinct fuel : forall c acc chain,
  traceSymlinks_loop fs fuel c acc = Some chain ->
  NoDup (map link (links_of fs (cursors fs fuel c))).
Proof.
  induction fuel as [|fuel IH]; intros c acc chain H; [discriminate|].
  pose proof (loop_reaches_root (S fuel) c acc chain H) as (k & _ & A).
  cbn [traceSymlinks_loop] in H. cbn [cursors].
  unfold links_of in *. cbn [flat_map].
  destruct (fs c) as [t|] eqn:R.
  - cbn [app map link]. constructor; [|exact (IH _ _ _ H)].
    intros I. apply in_map_iff in I as (e & L & I).
    apply In_links_of in I as [I _]. rewrite L in I.
    apply cursors_walk in I as (j & _ & I).
    apply (no_return_to_link c t k j R A).
    cbn [walk]. unfold next_cursor. rewrite R. now symmetry.
  - cbn [app]. destruct (String.eqb_spec (Path.Dir c) c) as [E|E].
    + rewrite E.
      pose proof (links_of_root fs fuel c R E) as L. unfold links_of in L.
      rewrite L. constructor.
    + exact (IH _ _ _ H).
Qed.

Lemma ancestor_succ n : forall p, ancestor (S n) p = Path.Dir (ancestor n p).
Proof.
  induction n as [|n IH]; intros p; [reflexivity|].
  change (ancestor (S (S n)) p) with (ancestor (S n) (Path.Dir p)).
  rewrite IH. reflexivity.
Qed.

Lemma climbs_refl p : climbs fs p p.
Proof. exists 0. split; [reflexivity|]. intros k Hk. lia. Qed.

Lemma climbs_parent p q :
  fs p = None -> climbs fs (Path.Dir p) q -> climbs fs p q.
Proof.
  intros R (n & E & N). exists (S n). split; [exact E|].
  intros [|k] Hk; [exact R|]. cbn [ancestor]. apply N. lia.
Qed.

Lemma linked_parent p chain :
  fs p = None -> linked fs (Path.Dir p) chain -> linked fs p chain.
Proof.
  intros R L. inversion L as [|? e es C T L']; subst; constructor; auto.
  now apply climbs_parent.
Qed.

Lemma last_target_cons p e es : last_target p (e :: es) = last_target (target e) es.
Proof.
  unfold last_target. cbn [rev].
  destruct (rev es) as [|x xs] eqn:E; reflexivity.
Qed.

Lemma loop_linked fuel : forall p acc chain,
  traceSymlinks_loop fs fuel p acc = Some chain ->
  exists rest,
    chain = acc ++ rest
    /\ linked fs p rest
    /\ exists root, climbs fs (last_target p rest) root /\ at_root fs root.
Proof.
  induction fuel as [|fuel IH]; intros p acc chain H; [discriminate|].
  cbn [traceSymlinks_loop] in H.
  destruct (fs p) as [t|] eqn:R.
  - destruct (IH _ _ _ H) as (rest & -> & L & root & C & A).
    exists ({| target := t; link := p |} :: rest). split; [|split].
    + now rewrite <- app_assoc.
    + constructor; auto. apply climbs_refl.
    + exists root. rewrite last_target_cons. auto.
  - destruct (String.eqb_spec (Path.Dir p) p) as [E|E].
    + injection H as <-. exists []. split; [now rewrite app_nil_r|].
      split; [constructor|]. exists p. split; [apply climbs_refl|now split].
    + destruct (IH _ _ _ H) as (rest & -> & L & root & C & A).
      exists rest. split; [reflexivity|]. split; [now apply linked_parent|].
      exists root. split; [|exact A].
      destruct rest as [|e es]; [|now rewrite last_target_cons in *].
      unfold last_target in *. cbn [rev] in *. now apply climbs_parent.
Qed.

End Walk.

(** X1. A chain that [traceSymlinks] returns never lists a link twice. *)
Theorem traceSymlinks_links_distinct (fs : FS) (fuel : nat) (path : string)
    (chain : list symlink) :
  traceSymlinks fs fuel path = Some chain -> NoDup (map link chain).
Proof.
  intros H. pose proof (loop_links_distinct fs fuel path [] chain H) as N.
  apply loop_discovery_order in H. cbn [app] in H. now rewrite H.
Qed.

Lemma traceSymlinks_links_distinct_witness :
  NoDup ["/tmp/fw/metrics.txt"; "/tmp/fw/data_symlink"].
Proof.
  exact (traceSymlinks_links_distinct fs_volume 7 "/tmp/fw/metrics.txt" _ eq_refl).
Defined.

Lemma traceSymlinks_loop_S (fs : FS) fuel path acc :
  traceSymlinks_loop fs (S fuel) path acc
  = match fs path with
    | None => if String.eqb (Path.Dir path) path then Some acc
              else traceSymlinks_loop fs fuel (Path.Dir path) acc
    | Some tgt => traceSymlinks_loop fs fuel tgt
                    (acc ++ [{| target := tgt; link := path |}])
    end.
Proof. reflexivity. Qed.

Lemma walk_S (fs : FS) n : forall c,
  walk fs (S n) c = next_cursor fs (walk fs n c).
Proof.
  induction n as [|n IH]; intros c; [reflexivity|].
  change (walk fs (S (S n)) c) with (walk fs (S n) (next_cursor fs c)).
  now rewrite IH.
Qed.

(** The loop returns once the cursor has come to the root. *)
Lemma root_reached_returns (fs : FS) k : forall p acc,
  at_root fs (walk fs k p) ->
  exists chain, traceSymlinks_loop fs (S k) p acc = Some chain.
Proof.
  induction k as [|k IH]; intros p acc A; rewrite traceSymlinks_loop_S.
  - destruct A as [R E]. cbn [walk] in R, E. rewrite R.
    apply String.eqb_eq in E. rewrite E. eauto.
  - cbn [walk] in A. unfold next_cursor in A.
    destruct (fs p) as [t|] eqn:R; [now apply IH|].
    destruct (String.eqb (Path.Dir p) p); [eauto|now apply IH].
Qed.

Lemma link_table_In links p :
  link_table links p <> None -> In p (map fst links).
Proof.
  induction links as [|[l t] links IH]; cbn; [congruence|].
  destruct (String.eqb_spec p l) as [->|N]; [now left|].
  intros H. right. now apply IH.
Qed.

Section NoRevisit.

Variable fs : FS.
Variable links : list string.
Variable path : string.

Hypothesis links_all : forall p, fs p <> None -> In p links.
Hypothesis no_revisit :
  forall i j, i < j -> fs (walk fs i path) <> None ->
              walk fs j path <> walk fs i path.

(** The links met so far are distinct and there are finitely many links, so
    only so many more can be met; between two of them the cursor goes up,
    and every step up lowers the rank of the cursor. *)
Lemma no_revisit_reaches_root m : forall r i seen,
  Path.rank (walk fs i path) <= r ->
  NoDup seen ->
  incl seen links ->
  (forall x, In x seen -> exists i', i' < i /\ walk fs i' path = x) ->
  List.length links - List.length seen <= m ->
  exists k, at_root fs (walk fs k path).
Proof.
  induction m as [|m IHm].
  - induction r as [|r IHr]; intros i seen Hr Hn Hi Hs Hm;
      destruct (fs (walk fs i path)) as [t|] eqn:R.
    + exfalso.
      assert (Hc : ~ In (walk fs i path) seen).
      { intros I. destruct (Hs _ I) as (i' & Lt & E).
        apply (no_revisit i' i Lt); [rewrite E; congruence|now symmetry]. }
      assert (Hl : In (walk fs i path) links) by (apply links_all; congruence).
      pose proof (NoDup_incl_length (NoDup_cons _ Hc Hn)
                    (incl_cons Hl Hi)) as B.
      cbn [List.length] in B. lia.
    + destruct (String.eqb_spec (Path.Dir (walk fs i path)) (walk fs i path)) as [E|E].
      * exists i. now split.
      * pose proof (PathFacts.Dir_rank _ E). lia.
    + exfalso.
      assert (Hc : ~ In (walk fs i path) seen).
      { intros I. destruct (Hs _ I) as (i' & Lt & E).
        apply (no_revisit i' i Lt); [rewrite E; congruence|now symmetry]. }
      assert (Hl : In (walk fs i path) links) by (apply links_all; congruence).
      pose proof (NoDup_incl_length (NoDup_cons _ Hc Hn)
                    (incl_cons Hl Hi)) as B.
      cbn [List.length] in B. lia.
    + destruct (String.eqb_spec (Path.Dir (walk fs i path)) (walk fs i path)) as [E|E].
      * exists i. now split.
      * apply (IHr (S i) seen); auto.
        -- rewrite walk_S. unfold next_cursor. rewrite R.
           pose proof (PathFacts.Dir_rank _ E). lia.
        -- intros x I. destruct (Hs x I) as (i' & Lt & Ex). exists i'. split; [lia|auto].
  - assert (Link : forall i seen t,
               fs (walk fs i path) = Some t ->
               NoDup seen -> incl seen links ->
               (forall x, In x seen -> exists i', i' < i /\ walk fs i' path = x) ->
               List.length links - List.length seen <= S m ->
               exists k, at_root fs (walk fs k path)).
    { intros i seen t R Hn Hi Hs Hm.
      assert (Hc : ~ In (walk fs i path) seen).
      { intros I. destruct (Hs _ I) as (i' & Lt & E).
        apply (no_revisit i' i Lt); [rewrite E; congruence|now symmetry]. }
      assert (Hl : In (walk fs i path) links) by (apply links_all; congruence).
      pose proof (NoDup_incl_length (NoDup_cons _ Hc Hn)
                    (incl_cons Hl Hi)) as B.
      cbn [List.length] in B.
      apply (IHm (Path.rank (walk fs (S i) path)) (S i) (walk fs i path :: seen)).
      - lia.
      - now constructor.
      - now apply incl_cons.
      - intros x [<-|I]; [exists i; split; [lia|reflexivity]|].
        destruct (Hs x I) as (i' & Lt & Ex). exists i'. split; [lia|auto].
      - cbn [List.length]. lia. }
    induction r as [|r IHr]; intros i seen Hr Hn Hi Hs Hm;
      destruct (fs (walk fs i path)) as [t|] eqn:R.
    + now apply (Link i seen t).
    + destruct (String.eqb_spec (Path.Dir (walk fs i path)) (walk fs i path)) as [E|E].
      * exists i. now split.
      * pose proof (PathFacts.Dir_rank _ E). lia.
    + now apply (Link i seen t).
    + destruct (String.eqb_spec (Path.Dir (walk fs i path)) (walk fs i path)) as [E|E].
      * exists i. now split.
      * apply (IHr (S i) seen); auto.
        -- rewrite walk_S. unfold next_cursor. rewrite R.
           pose proof (PathFacts.Dir_rank _ E). lia.
        -- intros x I. destruct (Hs x I) as (i' & Lt & Ex). exists i'. split; [lia|auto].
Qed.

End NoRevisit.

Example trace_beside_cycle : traceSymlinks fs_cycle 3 "/tmp/x" = Some [].
Proof. reflexivity. Qed.

(** C7, amended. In a file system with finitely many links [traceSymlinks]
    returns exactly when its traversal from the path never comes back to a
    link it has already followed. So it returns on every path when there is
    no link, and on the paths whose traversal stays clear of a cycle of
    links; it never returns when the traversal runs into such a cycle. *)
Theorem traceSymlinks_terminates_iff_no_revisit (fs : FS) (links : list string)
    (path : string) :
  (forall p, fs p <> None -> In p links) ->
  ((exists fuel chain, traceSymlinks fs fuel path = Some chain)
   <-> (forall i j, i < j -> fs (walk fs i path) <> None ->
                    walk fs j path <> walk fs i path)).
Proof.
  intros Hall. split.
  - intros (fuel & chain & H) i j Lt L E.
    destruct (loop_reaches_root fs fuel path [] chain H) as (k & _ & A).
    destruct (fs (walk fs i path)) as [t|] eqn:R; [|congruence].
    assert (A' : at_root fs (walk fs k (walk fs i path))).
    { rewrite <- walk_add, Nat.add_comm, walk_add.
      now rewrite (at_root_walk fs i _ A). }
    apply (no_return_to_link fs (walk fs i path) t k (j - S i) R A').
    rewrite <- walk_add. now replace (i + S (j - S i)) with j by lia.
  - intros Hno.
    destruct (no_revisit_reaches_root fs links path Hall Hno
                (List.length links) (Path.rank path) 0 [])
      as [k A].
    + apply le_n.
    + constructor.
    + intros x [].
    + intros x [].
    + lia.
    + exists (S k). exact (root_reached_returns fs k path [] A).
Qed.

Lemma traceSymlinks_terminates_iff_no_revisit_witness :
  (exists fuel chain, traceSymlinks fs_cycle fuel "/tmp/x" = Some chain)
  <-> (forall i j, i < j -> fs_cycle (walk fs_cycle i "/tmp/x") <> None ->
                   walk fs_cycle j "/tmp/x" <> walk fs_cycle i "/tmp/x").
Proof.
  apply (traceSymlinks_terminates_iff_no_revisit fs_cycle ["/a"] "/tmp/x").
  exact (link_table_In [("/a", "/a")]).
Defined.

Lemma ancestor_root n : forall p, Path.Dir p = p -> ancestor n p = p.
Proof.
  induction n as [|n IH]; intros p E; cbn [ancestor]; [reflexivity|].
  rewrite E. now apply IH.
Qed.

Lemma climb_to_root (fs : FS) n : forall p acc,
  (forall k, k < n -> fs (ancestor k p) = None) ->
  at_root fs (ancestor n p) ->
  exists fuel, traceSymlinks_loop fs fuel p acc = Some acc.
Proof.
  induction n as [|n IH]; intros p acc N [R E].
  - exists 1. cbn in *. rewrite R.
    apply String.eqb_eq in E. now rewrite E.
  - pose proof (N 0 ltac:(lia)) as R0. cbn [ancestor] in R0.
    destruct (String.eqb_spec (Path.Dir p) p) as [F|F].
    + exists 1. cbn [traceSymlinks_loop]. rewrite R0.
      apply String.eqb_eq in F. now rewrite F.
    + destruct (IH (Path.Dir p) acc) as [fuel H].
      * intros k Hk. apply (N (S k)). lia.
      * now split.
      * exists (S fuel). cbn [traceSymlinks_loop]. rewrite R0.
        apply String.eqb_neq in F. now rewrite F.
Qed.

Lemma climb_to_link (fs : FS) n : forall p acc e chain,
  (forall k, k < n -> fs (ancestor k p) = None) ->
  ancestor n p = link e ->
  fs (link e) = Some (target e) ->
  (exists fuel, traceSymlinks_loop fs fuel (target e) (acc ++ [e]) = Some chain) ->
  exists fuel, traceSymlinks_loop fs fuel p acc = Some chain.
Proof.
  induction n as [|n IH]; intros p acc e chain N A T [fuel H].
  - cbn in A. subst p. exists (S fuel). cbn [traceSymlinks_loop]. rewrite T.
    now destruct e.
  - pose proof (N 0 ltac:(lia)) as R0. cbn [ancestor] in R0.
    destruct (String.eqb_spec (Path.Dir p) p) as [F|F].
    + rewrite (ancestor_root (S n) p F) in A. congruence.
    + destruct (IH (Path.Dir p) acc e chain) as [fuel' H']; eauto.
      * intros k Hk. apply (N (S k)). lia.
      * exists (S fuel'). cbn [traceSymlinks_loop]. rewrite R0.
        apply String.eqb_neq in F. now rewrite F.
Qed.

Lemma linked_loop (fs : FS) p chain :
  linked fs p chain ->
  forall acc root,
    climbs fs (last_target p chain) root -> at_root fs root ->
    exists fuel, traceSymlinks_loop fs fuel p acc = Some (acc ++ chain).
Proof.
  induction 1 as [p|p e es (n & A & N) T L IH]; intros acc root C R.
  - rewrite app_nil_r. destruct C as (n & A & N). unfold last_target in *.
    cbn [rev] in *. apply (climb_to_root fs n p acc N). now rewrite A.
  - rewrite last_target_cons in C.
    apply (climb_to_link fs n p acc e (acc ++ e :: es) N A T).
    destruct (IH (acc ++ [e]) root C R) as [fuel H]. exists fuel.
    now rewrite <- app_assoc in H.
Qed.

(** X2. [traceSymlinks] returns a chain exactly when the chain hangs
    together from the path: its first link is the path or an ancestor of
    it, every further link is the target before it or an ancestor of that,
    nothing passed on the way up is a link, every edge holds what its link
    reads, and from the last target (from the path, if the chain is empty)
    the way up ends at a path that is its own parent. *)
Theorem traceSymlinks_chain_linked (fs : FS) (path : string) (chain : list symlink) :
  (exists fuel, traceSymlinks fs fuel path = Some chain)
  <-> (linked fs path chain
       /\ exists root, climbs fs (last_target path chain) root /\ at_root fs root).
Proof.
  split.
  - intros [fuel H].
    destruct (loop_linked fs fuel path [] chain H) as (rest & E & L & R).
    cbn [app] in E. subst rest. auto.
  - intros (L & root & C & R).
    exact (linked_loop fs path chain L [] root C R).
Qed.

Lemma traceSymlinks_chain_linked_witness :
  linked fs_volume "/tmp/fw/metrics.txt"
    [ {| target := "/tmp/fw/data_symlink/metrics.txt"; link := "/tmp/fw/metrics.txt" |};
      {| target := "/tmp/fw/datav1"; link := "/tmp/fw/data_symlink" |} ]
  /\ exists root,
       climbs fs_volume
         (last_target "/tmp/fw/metrics.txt"
            [ {| target := "/tmp/fw/data_symlink/metrics.txt";
                 link := "/tmp/fw/metrics.txt" |};
              {| target := "/tmp/fw/datav1"; link := "/tmp/fw/data_symlink" |} ]) root
       /\ at_root fs_volume root.
Proof.
  apply (proj1 (traceSymlinks_chain_linked fs_volume "/tmp/fw/metrics.txt" _)).
  exists 7. reflexivity.
Defined.

(* ===================================================================== *)
(** * More about the polls                                                 *)
(* ===================================================================== *)

Lemma poll_recorded fs chain :
  Forall (fun e => fs (link e) = Some (target e)) chain ->
  poll fs chain = (map link chain, true).
Proof.
  induction 1 as [|e chain R _ IH]; cbn [poll map]; [reflexivity|].
  now rewrite R, String.eqb_refl, IH.
Qed.

(** X3. A poll of the file system the chain was traced on reads every link
    of the chain and finds nothing changed. *)
Theorem poll_after_trace_passes (fs : FS) (fuel : nat) (path : string)
    (chain : list symlink) :
  traceSymlinks fs fuel path = Some chain ->
  poll fs chain = (map link chain, true).
Proof.
  intros H. apply poll_recorded.
  apply loop_discovery_order in H. cbn [app] in H. rewrite H.
  apply links_of_recorded.
Qed.

Lemma poll_after_trace_passes_witness :
  poll fs_volume
    [ {| target := "/tmp/fw/data_symlink/metrics.txt"; link := "/tmp/fw/metrics.txt" |};
      {| target := "/tmp/fw/datav1"; link := "/tmp/fw/data_symlink" |} ]
  = (["/tmp/fw/metrics.txt"; "/tmp/fw/data_symlink"], true).
Proof.
  exact (poll_after_trace_passes fs_volume 7 "/tmp/fw/metrics.txt" _ eq_refl).
Defined.

(** X4. A poll that fails stops at the first edge that cannot be read or
    reads another target: the edges before it read as recorded, and the
    edges after it are not read. *)
Theorem poll_stops_at_first_drift (fs : FS) (chain : list symlink) :
  snd (poll fs chain) = false ->
  exists pre l post,
    chain = pre ++ l :: post
    /\ Forall (fun e => fs (link e) = Some (target e)) pre
    /\ drifted fs l
    /\ fst (poll fs chain) = map link (pre ++ [l]).
Proof.
  unfold drifted. induction chain as [|e chain IH]; cbn [poll]; [discriminate|].
  destruct (fs (link e)) as [t|] eqn:R.
  - destruct (String.eqb_spec t (target e)) as [E|E]; cbn [negb].
    + destruct (poll fs chain) as [reads ok]. cbn [fst snd] in *. intros ->.
      destruct (IH eq_refl) as (pre & l & post & -> & F & D & P).
      exists (e :: pre), l, post. repeat split; auto.
      * constructor; [congruence|exact F].
      * cbn [app map]. now rewrite P.
    + intros _. exists [], e, chain. repeat split; eauto.
  - intros _. exists [], e, chain. repeat split; auto.
Qed.

Lemma poll_stops_at_first_drift_witness :
  exists pre l post,
    [ {| target := "/tmp/fw/data_symlink/metrics.txt"; link := "/tmp/fw/metrics.txt" |};
      {| target := "/tmp/fw/datav1"; link := "/tmp/fw/data_symlink" |} ]
    = pre ++ l :: post
    /\ Forall (fun e => fs_volume_swapped (link e) = Some (target e)) pre
    /\ drifted fs_volume_swapped l
    /\ fst (poll fs_volume_swapped
              [ {| target := "/tmp/fw/data_symlink/metrics.txt";
                   link := "/tmp/fw/metrics.txt" |};
                {| target := "/tmp/fw/datav1"; link := "/tmp/fw/data_symlink" |} ])
       = map link (pre ++ [l]).
Proof.
  apply (poll_stops_at_first_drift fs_volume_swapped
           [ {| target := "/tmp/fw/data_symlink/metrics.txt";
                link := "/tmp/fw/metrics.txt" |};
             {| target := "/tmp/fw/datav1"; link := "/tmp/fw/data_symlink" |} ]).
  reflexivity.
Defined.

(* ===================================================================== *)
(** * More about setting up                                                *)
(* ===================================================================== *)

(** X5. What [Watch] returns. It returns an error exactly when [os.Stat]
    reports that the path does not exist or the notifier cannot be created,
    and then no goroutine was started; any other error of [os.Stat] and any
    error of [watcher.Add] are passed over. Otherwise it returns the handle
    with the three goroutines at their selects and the traced chain as the
    snapshot. *)
Theorem Watch_result (os : OS) (fuel : nat) (filepath : string)
    (r : watch_result) (gs : list goroutine) :
  Watch os fuel filepath = Some (r, gs) ->
  match r with
  | WatchErr _ =>
      gs = [] /\ (IsNotExist (Stat os filepath) = true \/ NewWatcher os <> None)
  | WatchOk s =>
      IsNotExist (Stat os filepath) = false
      /\ NewWatcher os = None
      /\ gs = [GoWatchFile; GoWatchSymlinks; GoWatch]
      /\ traceSymlinks (Readlink os) fuel filepath = Some (symlinks s)
      /\ s = start make_chan make_chan (symlinks s)
  end.
Proof.
  unfold Watch, watchFile, watchSymlinks.
  destruct (NewWatcher os) as [e|];
    destruct (traceSymlinks (Readlink os) fuel filepath) as [chain|];
    destruct (Stat os filepath) as [e'|]; try destruct (IsNotExist (Some e')) eqn:N;
    try discriminate; intros [= <- <-]; cbn; repeat split; auto;
    try (right; discriminate).
Qed.

Lemma Watch_result_witness :
  IsNotExist (Stat os_no_watch "/tmp/fw/metrics.txt") = false
  /\ NewWatcher os_no_watch = None
  /\ [GoWatchFile; GoWatchSymlinks; GoWatch] = [GoWatchFile; GoWatchSymlinks; GoWatch]
  /\ traceSymlinks (Readlink os_no_watch) 4 "/tmp/fw/metrics.txt" = Some []
  /\ start make_chan make_chan [] = start make_chan make_chan [].
Proof.
  exact (Watch_result os_no_watch 4 "/tmp/fw/metrics.txt"
           (WatchOk (start make_chan make_chan [])) _ eq_refl).
Defined.

(** X6. [Watch] comes back exactly when it fails at the start or
    [traceSymlinks] comes back; on a path whose links run in a cycle, that
    [os.Stat] does not report as missing, and with a notifier that can be
    created, the call never returns. *)
Theorem Watch_returns (os : OS) (filepath : string) :
  (exists fuel r, Watch os fuel filepath = Some r)
  <-> (IsNotExist (Stat os filepath) = true
       \/ NewWatcher os <> None
       \/ exists fuel chain, traceSymlinks (Readlink os) fuel filepath = Some chain).
Proof.
  unfold Watch, watchFile, watchSymlinks. split.
  - intros (fuel & r & H).
    destruct (NewWatcher os) as [e|]; [right; left; discriminate|].
    destruct (traceSymlinks (Readlink os) fuel filepath) as [chain|] eqn:T;
      [right; right; eauto|].
    destruct (Stat os filepath) as [e'|]; [|discriminate].
    destruct (IsNotExist (Some e')); [now left|discriminate].
  - intros [N|[N|(fuel & chain & T)]].
    + exists 0. destruct (Stat os filepath) as [e'|]; [|discriminate].
      rewrite N. eauto.
    + exists 0. destruct (NewWatcher os) as [e|]; [|congruence].
      destruct (Stat os filepath) as [e'|]; [destruct (IsNotExist (Some e'))|]; eauto.
    + exists fuel. rewrite T.
      destruct (NewWatcher os) as [e|];
        (destruct (Stat os filepath) as [e'|]; [destruct (IsNotExist (Some e'))|]); eauto.
Qed.

Lemma Watch_returns_witness :
  exists fuel r, Watch os_volume fuel "/tmp/fw/metrics.txt" = Some r.
Proof.
  apply (proj2 (Watch_returns os_volume "/tmp/fw/metrics.txt")).
  right; right. exists 7. eexists. reflexivity.
Defined.

(* ===================================================================== *)
(** * More about the running system                                        *)
(* ===================================================================== *)

Ltac unfold_step E :=
  cbn in E; unfold fw_step, sw_step, mx_step, fw_return, sw_return,
    mx_return, chan_close, chan_send, chan_recv in E; cbn in E.

Ltac split_step E :=
  repeat match type of E with
    | context [match ?b with _ => _ end] => destruct b eqn:?; cbn in E
    end.

Lemma step_fw_returned s l s' :
  inv s -> step s l = Next s' -> fw s = FwReturned ->
  fw s' = FwReturned /\ fileWatcher s' = fileWatcher s.
Proof.
  intros H E F. open_state s H.
  destruct l; unfold_step E; try discriminate.
  all: try (injection E as <-; cbn; auto).
  all: destruct w, x; cbn in E; try discriminate; split_step E;
       try discriminate; injection E as <-; cbn; auto.
Qed.

Lemma run_fw_returned ls : forall s s',
  inv s -> run s ls = Next s' -> fw s = FwReturned ->
  fw s' = FwReturned /\ fileWatcher s' = fileWatcher s.
Proof.
  induction ls as [|l ls IH]; intros s s' H E F; cbn [run] in E.
  - injection E as <-. auto.
  - destruct (step s l) as [s1| |] eqn:S1; try discriminate.
    destruct (step_fw_returned s l s1 H S1 F) as [F1 C1].
    destruct (IH s1 s' (step_inv s l s1 H S1) E F1) as [F2 C2].
    split; [exact F2|congruence].
Qed.

(** X7. An error of the notifier, or its event stream closing, ends the
    direct watcher like a removal does: the goroutine returns, the notifier
    is closed, the channel is closed without a further signal, and from
    then on the goroutine stays returned, its channel stays as it is and no
    raw event is taken any more. *)
Theorem watchFile_notifier_failure_is_terminal (s : sys) (l : label) :
  inv s -> fw s = FwSelect ->
  l = FwError \/ l = FwEventsClosed ->
  exists s',
    step s l = Next s'
    /\ fw s' = FwReturned
    /\ watcher_closed s' = true
    /\ ch_hist (fileWatcher s') = ch_hist (fileWatcher s) ++ [Closed]
    /\ forall ls s'', run s' ls = Next s'' ->
         fw s'' = FwReturned
         /\ fileWatcher s'' = fileWatcher s'
         /\ forall e, step s'' (FwEvent e) = Blocked.
Proof.
  intros H F L.
  assert (A : exists s', step s l = Next s' /\ fw s' = FwReturned
                /\ watcher_closed s' = true
                /\ ch_hist (fileWatcher s') = ch_hist (fileWatcher s) ++ [Closed]).
  { pose proof (inv_fw_closed s H) as C. rewrite F in C. cbn in C.
    destruct L as [-> | ->]; cbn; unfold fw_step, fw_return, chan_close;
      rewrite F, C; eexists; repeat split. }
  destruct A as (s' & S1 & F' & W & Hh). exists s'.
  split; [exact S1|]. split; [exact F'|]. split; [exact W|]. split; [exact Hh|].
  intros ls s'' R.
  destruct (run_fw_returned ls s' s'' (step_inv s l s' H S1) R F') as [F'' C].
  split; [exact F''|]. split; [exact C|].
  intros e. cbn. unfold fw_step. now rewrite F''.
Qed.

Lemma watchFile_notifier_failure_is_terminal_witness :
  exists s',
    step (start make_chan make_chan []) FwError = Next s'
    /\ fw s' = FwReturned
    /\ watcher_closed s' = true
    /\ ch_hist (fileWatcher s') = [] ++ [Closed]
    /\ forall ls s'', run s' ls = Next s'' ->
         fw s'' = FwReturned
         /\ fileWatcher s'' = fileWatcher s'
         /\ forall e, step s'' (FwEvent e) = Blocked.
Proof.
  apply (watchFile_notifier_failure_is_terminal (start make_chan make_chan []) FwError
           (start_inv []) eq_refl).
  now left.
Defined.

(** A signal that [Watch] received is a signal it sends on. *)
Lemma step_forwarding s l s' :
  inv s -> step s l = Next s' ->
  offered (retChan s) = signals (ch_hist (fileWatcher s)) ->
  offered (retChan s') = signals (ch_hist (fileWatcher s')).
Proof.
  intros H E.
  pose proof (inv_fw_sending s H) as A1. pose proof (inv_fw_closed s H) as A2.
  pose proof (inv_mx_sending s H) as A3. pose proof (inv_mx_closed s H) as A4.
  pose proof (inv_sw_sending s H) as A5. pose proof (inv_sw_closed s H) as A6.
  clear H.
  destruct s as [cd wc sy f w x [fc fsn fh] [sc ssn sh] [rc rsn rh]].
  cbn in *. subst. unfold offered. cbn.
  destruct l; unfold_step E.
  all: try (injection E as <-; cbn; auto).
  all: destruct f, w, x; cbn in E; try discriminate; split_step E;
       try discriminate; injection E as <-; cbn in *;
       rewrite ?signals_app; cbn; lia.
Qed.

Lemma run_forwarding ls : forall s s',
  inv s -> run s ls = Next s' ->
  offered (retChan s) = signals (ch_hist (fileWatcher s)) ->
  offered (retChan s') = signals (ch_hist (fileWatcher s')).
Proof.
  induction ls as [|l ls IH]; intros s s' H E F; cbn [run] in E.
  - now injection E as <-.
  - destruct (step s l) as [s1| |] eqn:S1; try discriminate.
    apply (IH s1 s' (step_inv s l s1 H S1) E).
    exact (step_forwarding s l s1 H S1 F).
Qed.

(** X8. The signals of a watch add up. At any moment the raw events that
    were neither a removal, a rename nor a creation are the signals the
    caller has received, plus one if [Watch] stands at its send, plus one
    if [watchFile] stands at its send: nothing is delivered twice or made
    up, and at most two signals are on their way. *)
Theorem signals_accounted (chain : list symlink) (ls : list label) (s : sys) :
  run (start make_chan make_chan chain) ls = Next s ->
  other_changes ls
  = signals (ch_hist (retChan s))
    + (if mx_sending (mx s) then 1 else 0)
    + (if fw_sending (fw s) then 1 else 0).
Proof.
  intros R. pose proof (start_inv chain) as H0.
  pose proof (run_inv ls _ s H0 R) as H.
  pose proof (run_offered ls _ s H0 R) as O.
  pose proof (run_forwarding ls _ s H0 R eq_refl) as F.
  unfold offered in *. rewrite (inv_fw_sending s H) in O.
  rewrite (inv_mx_sending s H) in F. cbn in O. lia.
Qed.

Lemma signals_accounted_witness :
  exists s,
    run (start make_chan make_chan [])
      [FwEvent (ev "metrics.txt" fsnotify.Chmod); MxFile;
       FwEvent (ev "metrics.txt" fsnotify.Write)] = Next s
    /\ 2 = signals (ch_hist (retChan s))
           + (if mx_sending (mx s) then 1 else 0)
           + (if fw_sending (fw s) then 1 else 0).
Proof.
  eexists. split; [reflexivity|].
  exact (signals_accounted []
           [FwEvent (ev "metrics.txt" fsnotify.Chmod); MxFile;
            FwEvent (ev "metrics.txt" fsnotify.Write)] _ eq_refl).
Defined.

Lemma step_mx_send s l s' :
  inv s -> not_received l = true -> step s l = Next s' -> mx s = MxSend ->
  mx s' = MxSend /\ retChan s' = retChan s.
Proof.
  intros H Q E M. open_state s H.
  destruct l; try discriminate Q; unfold_step E; try discriminate.
  all: try (injection E as <-; cbn; auto).
  all: destruct f, w; cbn in E; try discriminate; split_step E;
       try discriminate; injection E as <-; cbn; auto.
Qed.

(** X9. While a signal waits on the handle for the caller, the goroutine
    of [Watch] does nothing else: whatever happens besides the caller
    receiving - cancellation, a removal, a changed link - the handle is not
    closed and stays as it is. *)
Theorem handle_waits_for_caller (s : sys) (ls : list label) (s' : sys) :
  inv s -> mx s = MxSend ->
  forallb not_received ls = true ->
  run s ls = Next s' ->
  mx s' = MxSend
  /\ retChan s' = retChan s
  /\ ch_closed (retChan s') = false.
Proof.
  intros H M Q R.
  assert (A : mx s' = MxSend /\ retChan s' = retChan s).
  { revert s H M Q R. induction ls as [|l ls IH]; intros s H M Q R;
      cbn [run forallb] in *.
    - injection R as <-. auto.
    - apply andb_true_iff in Q as [Q1 Q2].
      destruct (step s l) as [s1| |] eqn:S1; try discriminate.
      destruct (step_mx_send s l s1 H Q1 S1 M) as [M1 C1].
      destruct (IH s1 (step_inv s l s1 H S1) M1 Q2 R) as [M2 C2].
      split; [exact M2|congruence]. }
  destruct A as [M' C]. repeat split; auto.
  rewrite C, (inv_mx_closed s H), M. reflexivity.
Qed.

Lemma handle_waits_for_caller_witness :
  exists s0 s',
    run (start make_chan make_chan [])
      [FwEvent (ev "metrics.txt" fsnotify.Write); MxFile] = Next s0
    /\ run s0 [Cancel; SwCtxDone; FwEvent (ev "metrics.txt" fsnotify.Remove)] = Next s'
    /\ mx s' = MxSend
    /\ retChan s' = retChan s0
    /\ ch_closed (retChan s') = false.
Proof.
  do 2 eexists. split; [reflexivity|]. split; [reflexivity|].
  apply (handle_waits_for_caller _
           [Cancel; SwCtxDone; FwEvent (ev "metrics.txt" fsnotify.Remove)]).
  - exact (run_inv [FwEvent (ev "metrics.txt" fsnotify.Write); MxFile] _ _
             (start_inv []) eq_refl).
  - reflexivity.
  - reflexivity.
  - reflexivity.
Defined.

Lemma step_fw_stuck s l s' c :
  inv s -> step s l = Next s' -> mx s = MxReturned c -> fw s = FwSend ->
  mx s' = MxReturned c /\ fw s' = FwSend /\ fileWatcher s' = fileWatcher s.
Proof.
  intros H E M F. open_state s H.
  destruct l; unfold_step E; try discriminate.
  all: try (injection E as <-; cbn; auto).
  all: destruct w; cbn in E; try discriminate; split_step E;
       try discriminate; injection E as <-; cbn; auto.
Qed.

(** X10. A signal that the direct watcher still offers when the handle is
    closed is never taken: the goroutine of [watchFile] stays at its send
    for good, with its channel as it is and the notifier open. *)
Theorem watchFile_stuck_after_close (s : sys) (c : cause) (ls : list label)
    (s' : sys) :
  inv s -> mx s = MxReturned c -> fw s = FwSend ->
  run s ls = Next s' ->
  fw s' = FwSend
  /\ fileWatcher s' = fileWatcher s
  /\ watcher_closed s' = false
  /\ ch_hist (retChan s') = ch_hist (retChan s).
Proof.
  intros H M F R.
  assert (A : mx s' = MxReturned c /\ fw s' = FwSend
              /\ fileWatcher s' = fileWatcher s).
  { revert s H M F R. induction ls as [|l ls IH]; intros s H M F R; cbn [run] in R.
    - injection R as <-. auto.
    - destruct (step s l) as [s1| |] eqn:S1; try discriminate.
      destruct (step_fw_stuck s l s1 c H S1 M F) as (M1 & F1 & C1).
      destruct (IH s1 (step_inv s l s1 H S1) M1 F1 R) as (M2 & F2 & C2).
      repeat split; auto. congruence. }
  destruct A as (M' & F' & C).
  pose proof (run_inv ls s s' H R) as H'.
  split; [exact F'|]. split; [exact C|]. split.
  - rewrite (inv_fw_watcher s' H'), F'. reflexivity.
  - f_equal. apply (run_retChan_closed ls s s' H R).
    rewrite (inv_mx_closed s H), M. reflexivity.
Qed.

Lemma watchFile_stuck_after_close_witness :
  exists s0 s',
    run (start make_chan make_chan [])
      [FwEvent (ev "metrics.txt" fsnotify.Write); Cancel; MxCtxDone] = Next s0
    /\ run s0 [SwCtxDone; Cancel] = Next s'
    /\ fw s' = FwSend
    /\ fileWatcher s' = fileWatcher s0
    /\ watcher_closed s' = false
    /\ ch_hist (retChan s') = ch_hist (retChan s0).
Proof.
  do 2 eexists. split; [reflexivity|]. split; [reflexivity|].
  apply (watchFile_stuck_after_close _ Cancelled [SwCtxDone; Cancel]).
  - exact (run_inv [FwEvent (ev "metrics.txt" fsnotify.Write); Cancel; MxCtxDone]
             _ _ (start_inv []) eq_refl).
  - reflexivity.
  - reflexivity.
  - reflexivity.
Defined.

Lemma step_undisturbed chain l s' :
  undisturbed chain l = true ->
  step (start make_chan make_chan chain) l = Next s' ->
  s' = start make_chan make_chan chain.
Proof.
  destruct l; cbn; try discriminate; intros Q E; try discriminate E.
  unfold sw_step in E. cbn in E. rewrite Q in E. now injection E as <-.
Qed.

(** X11. A watch that nothing disturbs does nothing. Without cancellation
    and without anything from the notifier, and with polls that read the
    links as they were recorded, the system stays in the state [Watch] left
    it in: the handle is open and has carried no signal. *)
Theorem undisturbed_watch_is_silent (chain : list symlink) (ls : list label)
    (s : sys) :
  forallb (undisturbed chain) ls = true ->
  run (start make_chan make_chan chain) ls = Next s ->
  s = start make_chan make_chan chain.
Proof.
  induction ls as [|l ls IH]; intros Q R; cbn [run forallb] in *.
  - now injection R as <-.
  - apply andb_true_iff in Q as [Q1 Q2].
    destruct (step (start make_chan make_chan chain) l) as [s1| |] eqn:S1;
      try discriminate.
    apply step_undisturbed in S1; [|exact Q1]. subst s1. now apply IH.
Qed.

Lemma undisturbed_watch_is_silent_witness :
  exists s,
    run (start make_chan make_chan
           [ {| target := "/tmp/fw/datav1"; link := "/tmp/fw/data_symlink" |} ])
        [SwTick fs_volume; SwTick fs_volume; SwTick fs_volume] = Next s
    /\ s = start make_chan make_chan
             [ {| target := "/tmp/fw/datav1"; link := "/tmp/fw/data_symlink" |} ].
Proof.
  eexists. split; [reflexivity|].
  apply (undisturbed_watch_is_silent
           [ {| target := "/tmp/fw/datav1"; link := "/tmp/fw/data_symlink" |} ]
           [SwTick fs_volume; SwTick fs_volume; SwTick fs_volume]); reflexivity.
Defined.

(** X12. A changed link closes the handle without a signal. With the chain
    watcher and [Watch] at their selects, a poll that fails followed by the
    chain watcher's case of [Watch] adds the closure to the handle and
    nothing else. *)
Theorem drift_closes_handle (s : sys) (fs : FS) :
  inv s -> sw s = SwSelect -> mx s = MxSelect ->
  snd (poll fs (symlinks s)) = false ->
  exists s',
    run s [SwTick fs; MxSymlinks] = Next s'
    /\ mx s' = MxReturned SymlinksClosed
    /\ ch_hist (retChan s') = ch_hist (retChan s) ++ [Closed].
Proof.
  intros H W M P. open_state s H. cbn [run step].
  unfold sw_step. cbn. rewrite P. cbn. eexists. repeat split.
Qed.

Lemma drift_closes_handle_witness :
  exists s',
    run (start make_chan make_chan
           [ {| target := "/tmp/fw/datav1"; link := "/tmp/fw/data_symlink" |} ])
        [SwTick fs_volume_swapped; MxSymlinks] = Next s'
    /\ mx s' = MxReturned SymlinksClosed
    /\ ch_hist (retChan s') = [] ++ [Closed].
Proof.
  apply (drift_closes_handle
           (start make_chan make_chan
              [ {| target := "/tmp/fw/datav1"; link := "/tmp/fw/data_symlink" |} ])
           fs_volume_swapped (start_inv _)); reflexivity.
Defined.

(** X13. A removal or a rename closes the handle without a signal. With
    [watchFile] and [Watch] at their selects, the raw event followed by the
    direct watcher's case of [Watch] adds the closure to the handle and
    nothing else, and the notifier is closed. *)
Theorem removal_closes_handle (s : sys) (e : fsnotify.Event) :
  inv s -> fw s = FwSelect -> mx s = MxSelect ->
  fsnotify.Has e fsnotify.Remove || fsnotify.Has e fsnotify.Rename = true ->
  exists s',
    run s [FwEvent e; MxFile] = Next s'
    /\ mx s' = MxReturned FileWatcherClosed
    /\ watcher_closed s' = true
    /\ ch_hist (retChan s') = ch_hist (retChan s) ++ [Closed].
Proof.
  intros H F M T. open_state s H. cbn [run step].
  unfold fw_step, watchFile_event. cbn. rewrite T. cbn. eexists. repeat split.
Qed.

Lemma removal_closes_handle_witness :
  exists s',
    run (start make_chan make_chan [])
      [FwEvent (ev "metrics.txt" fsnotify.Rename); MxFile] = Next s'
    /\ mx s' = MxReturned FileWatcherClosed
    /\ watcher_closed s' = true
    /\ ch_hist (retChan s') = [] ++ [Closed].
Proof.
  apply (removal_closes_handle (start make_chan make_chan [])
           (ev "metrics.txt" fsnotify.Rename) (start_inv [])); reflexivity.
Defined.

Lemma step_plain_chain s l s' :
  step s l = Next s' ->
  symlinks s = [] /\ (sw s = SwReturned -> ctx_done s = true) ->
  symlinks s' = [] /\ (sw s' = SwReturned -> ctx_done s' = true).
Proof.
  intros E [Y I]. split; [now rewrite (step_symlinks s l s' E)|].
  destruct s as [cd wc sy f w x [fc fsn fh] [sc ssn sh] [rc rsn rh]].
  cbn in *. subst sy.
  destruct l; unfold_step E.
  all: try (injection E as <-; cbn; auto).
  all: destruct f, w, x; cbn in E; try discriminate; split_step E;
       try discriminate; injection E as <-; cbn; auto; discriminate.
Qed.

Lemma run_plain_chain ls : forall s0 s,
  symlinks s0 = [] /\ (sw s0 = SwReturned -> ctx_done s0 = true) ->
  run s0 ls = Next s ->
  symlinks s = [] /\ (sw s = SwReturned -> ctx_done s = true).
Proof.
  induction ls as [|l ls IH]; intros s0 s P R; cbn [run] in R.
  - now injection R as <-.
  - destruct (step s0 l) as [s1| |] eqn:S1; try discriminate.
    exact (IH s1 s (step_plain_chain s0 l s1 S1 P) R).
Qed.

(** X14. Without a link to watch the chain watcher ends by cancellation
    only: when the traced chain is empty, its channel is closed in no state
    but one whose context is cancelled. *)
Theorem plain_file_chain_closes_on_cancel_only (ls : list label) (s : sys) :
  run (start make_chan make_chan []) ls = Next s ->
  ch_closed (symlinksChan s) = true ->
  ctx_done s = true.
Proof.
  intros R C.
  pose proof (run_inv ls _ s (start_inv []) R) as H.
  rewrite (inv_sw_closed s H) in C.
  assert (P : symlinks (start make_chan make_chan []) = []
              /\ (sw (start make_chan make_chan []) = SwReturned ->
                  ctx_done (start make_chan make_chan []) = true))
    by (split; [reflexivity|discriminate]).
  apply (proj2 (run_plain_chain ls _ s P R)).
  destruct (sw s); [discriminate|reflexivity].
Qed.

Lemma plain_file_chain_closes_on_cancel_only_witness :
  exists s,
    run (start make_chan make_chan []) [SwTick fs_volume_swapped; Cancel; SwCtxDone]
    = Next s
    /\ ctx_done s = true.
Proof.
  eexists. split; [reflexivity|].
  apply (plain_file_chain_closes_on_cancel_only
           [SwTick fs_volume_swapped; Cancel; SwCtxDone]); reflexivity.
Defined.

(* ===================================================================== *)
(** * The first server                                                     *)
(* ===================================================================== *)

Module MainFacts.
Import Main.

Lemma loadMetrics_cases rd m :
  (exists data, rd = ReadOk data /\ data <> [] /\ loadMetrics rd m = (None, data))
  \/ (exists err, loadMetrics rd m = (Some err, m)
                  /\ (rd = ReadOk [] \/ exists e, rd = ReadErr e)).
Proof.
  destruct rd as [e|data]; cbn.
  - right. eauto.
  - destruct data as [|b data]; cbn.
    + right. eauto.
    + left. eexists. repeat split. discriminate.
Qed.

Lemma loop_snoc s ins i :
  watchMetrics_loop s (ins ++ [i]) = watchMetrics_step (watchMetrics_loop s ins) i.
Proof. unfold watchMetrics_loop. now rewrite fold_left_app. Qed.

Lemma step_metrics s i :
  metrics (watchMetrics_step s i) = metrics s
  \/ exists e data, i = Event e (ReadOk data) /\ is_write e = true /\ data <> []
                    /\ watching s = true
                    /\ metrics (watchMetrics_step s i) = data.
Proof.
  unfold watchMetrics_step. destruct (watching s) eqn:W; [|now left].
  destruct i as [e rd| | |]; cbn; try now left.
  destruct (is_write e) eqn:Wr; [|now left].
  destruct (loadMetrics_cases rd (metrics s)) as [(data & -> & N & L)|(err & L & _)];
    rewrite L; cbn; [|now left].
  right. exists e, data. auto.
Qed.

Lemma loop_metrics ins : forall s,
  metrics (watchMetrics_loop s ins) = metrics s
  \/ exists e data, In (Event e (ReadOk data)) ins /\ is_write e = true /\ data <> []
                    /\ metrics (watchMetrics_loop s ins) = data.
Proof.
  induction ins as [|i ins IH] using rev_ind; intros s; [now left|].
  rewrite loop_snoc.
  destruct (step_metrics (watchMetrics_loop s ins) i) as [E|(e & data & -> & Wr & N & _ & E)].
  - rewrite E. destruct (IH s) as [A|(e & data & I & Wr & N & A)]; [now left|].
    right. exists e, data. repeat split; auto. apply in_or_app. now left.
  - right. exists e, data. repeat split; auto. apply in_or_app. right. now left.
Qed.

Lemma step_watching s i :
  watching (watchMetrics_step s i) = watching s && negb (closes i).
Proof.
  unfold watchMetrics_step. destruct (watching s) eqn:W; [|exact W].
  destruct i as [e rd| | |]; cbn; auto.
  destruct (is_write e); [|now rewrite W].
  destruct (loadMetrics rd (metrics s)) as [[err|] m]; reflexivity.
Qed.

Lemma step_stopped s i : watching s = false -> watchMetrics_step s i = s.
Proof. unfold watchMetrics_step. now intros ->. Qed.

End MainFacts.

(** X15. The first server never serves an empty body. [main] goes on only
    when the first load gave content, and whatever the watcher receives
    afterwards, [metrics] is not empty and a response that was written
    carries it. *)
Theorem served_metrics_never_empty (rd : Main.read_result) (s0 : Main.server)
    (ins : list Main.input) :
  Main.main_load rd = Main.Serving s0 ->
  Main.metrics (Main.watchMetrics_loop s0 ins) <> []
  /\ Main.handler (Main.watchMetrics_loop s0 ins) true
     = Main.Body (Main.metrics (Main.watchMetrics_loop s0 ins)).
Proof.
  intros L. split; [|reflexivity].
  assert (N0 : Main.metrics s0 <> []).
  { unfold Main.main_load in L.
    destruct (MainFacts.loadMetrics_cases rd []) as [(data & -> & N & E)|(err & E & _)];
      rewrite E in L; [|discriminate].
    injection L as <-. exact N. }
  destruct (MainFacts.loop_metrics ins s0) as [E|(e & data & _ & _ & N & E)];
    rewrite E; assumption.
Qed.

Lemma served_metrics_never_empty_witness :
  Main.metrics
    (Main.watchMetrics_loop
       {| Main.metrics := [Byte.x00]; Main.log := []; Main.watching := true |}
       [Main.Event (ev "metrics" fsnotify.Write) (Main.ReadOk []);
        Main.Event (ev "metrics" fsnotify.Write) (Main.ReadErr ENOENT)]) <> []
  /\ Main.handler
       (Main.watchMetrics_loop
          {| Main.metrics := [Byte.x00]; Main.log := []; Main.watching := true |}
          [Main.Event (ev "metrics" fsnotify.Write) (Main.ReadOk []);
           Main.Event (ev "metrics" fsnotify.Write) (Main.ReadErr ENOENT)]) true
     = Main.Body
         (Main.metrics
            (Main.watchMetrics_loop
               {| Main.metrics := [Byte.x00]; Main.log := []; Main.watching := true |}
               [Main.Event (ev "metrics" fsnotify.Write) (Main.ReadOk []);
                Main.Event (ev "metrics" fsnotify.Write) (Main.ReadErr ENOENT)])).
Proof.
  apply (served_metrics_never_empty (Main.ReadOk [Byte.x00])). reflexivity.
Defined.

(** X16. The first server serves what it read. After any run of the
    watcher, [metrics] is what it was before, or it is the content - not
    empty - that [ReadFile] gave at one of the events with the Write bit. *)
Theorem served_metrics_were_read (s : Main.server) (ins : list Main.input) :
  Main.metrics (Main.watchMetrics_loop s ins) = Main.metrics s
  \/ exists e data,
       In (Main.Event e (Main.ReadOk data)) ins
       /\ Main.is_write e = true
       /\ data <> []
       /\ Main.metrics (Main.watchMetrics_loop s ins) = data.
Proof. apply MainFacts.loop_metrics. Qed.

(** X17. Only an event with the Write bit makes the first server reload.
    Through a run of events without it - a chmod, a creation, a removal, a
    rename - and of watcher errors, [metrics] stays what it was; so after
    the file was replaced by a rename the server keeps the old content. *)
Theorem watchMetrics_reloads_on_write_only (s : Main.server) (ins : list Main.input) :
  forallb (fun i => negb (Main.reloads i)) ins = true ->
  Main.metrics (Main.watchMetrics_loop s ins) = Main.metrics s.
Proof.
  intros Q.
  destruct (MainFacts.loop_metrics ins s) as [E|(e & data & I & Wr & _ & _)];
    [exact E|].
  rewrite forallb_forall in Q. specialize (Q _ I). cbn in Q.
  rewrite Wr in Q. discriminate.
Qed.

Lemma watchMetrics_reloads_on_write_only_witness :
  Main.metrics
    (Main.watchMetrics_loop
       {| Main.metrics := [Byte.x00]; Main.log := []; Main.watching := true |}
       [Main.Event (ev "metrics" fsnotify.Rename) (Main.ReadErr ENOENT);
        Main.Event (ev "metrics" fsnotify.Create) (Main.ReadOk [Byte.x01]);
        Main.WatcherError EINVAL])
  = [Byte.x00].
Proof.
  apply (watchMetrics_reloads_on_write_only
           {| Main.metrics := [Byte.x00]; Main.log := []; Main.watching := true |}).
  reflexivity.
Defined.

(** X18. The loop of [watchMetrics] runs until one of its two channels is
    closed, and only then stops: an error of the watcher does not end it.
    Once it has stopped, nothing changes any more. *)
Theorem watchMetrics_stops_on_close_only (s : Main.server) (ins : list Main.input) :
  Main.watching (Main.watchMetrics_loop s ins)
  = Main.watching s && forallb (fun i => negb (Main.closes i)) ins
  /\ (Main.watching s = false -> Main.watchMetrics_loop s ins = s).
Proof.
  split.
  - revert s. induction ins as [|i ins IH]; intros s; cbn [forallb].
    + now rewrite andb_true_r.
    + change (Main.watchMetrics_loop s (i :: ins))
        with (Main.watchMetrics_loop (Main.watchMetrics_step s i) ins).
      rewrite IH, MainFacts.step_watching. now rewrite andb_assoc.
  - revert s. induction ins as [|i ins IH]; intros s W; [reflexivity|].
    change (Main.watchMetrics_loop s (i :: ins))
      with (Main.watchMetrics_loop (Main.watchMetrics_step s i) ins).
    rewrite (MainFacts.step_stopped s i W). now apply IH.
Qed.

(** X19. A reload that works is served, a reload that fails is not. While
    the loop runs, an event with the Write bit at which the file reads as
    content that is not empty makes that content the body of the next
    response; at which the file cannot be read or is empty, the body stays
    the one before. *)
Theorem reload_serves_the_file (s : Main.server) (ins : list Main.input)
    (e : fsnotify.Event) (rd : Main.read_result) :
  Main.watching s = true ->
  forallb (fun i => negb (Main.closes i)) ins = true ->
  Main.is_write e = true ->
  Main.handler (Main.watchMetrics_loop s (ins ++ [Main.Event e rd])) true
  = match rd with
    | Main.ReadOk (b :: data) => Main.Body (b :: data)
    | _ => Main.Body (Main.metrics (Main.watchMetrics_loop s ins))
    end.
Proof.
  intros W Q Wr. rewrite MainFacts.loop_snoc.
  assert (W' : Main.watching (Main.watchMetrics_loop s ins) = true).
  { clear Wr. revert s W. induction ins as [|i ins IH]; intros s W; [exact W|].
    cbn [forallb] in Q. apply andb_true_iff in Q as [Q1 Q2].
    change (Main.watchMetrics_loop s (i :: ins))
      with (Main.watchMetrics_loop (Main.watchMetrics_step s i) ins).
    apply IH; [exact Q2|]. now rewrite MainFacts.step_watching, W, Q1. }
  unfold Main.handler, Main.watchMetrics_step. rewrite W', Wr.
  destruct rd as [er|[|b data]]; reflexivity.
Qed.

Lemma reload_serves_the_file_witness :
  Main.handler
    (Main.watchMetrics_loop
       {| Main.metrics := [Byte.x00]; Main.log := []; Main.watching := true |}
       ([Main.WatcherError EINVAL]
        ++ [Main.Event (ev "metrics" fsnotify.Write) (Main.ReadOk [Byte.x01])])) true
  = Main.Body [Byte.x01].
Proof.
  apply (reload_serves_the_file
           {| Main.metrics := [Byte.x00]; Main.log := []; Main.watching := true |}
           [Main.WatcherError EINVAL] (ev "metrics" fsnotify.Write)
           (Main.ReadOk [Byte.x01])); reflexivity.
Defined.
